(** * parenting-bot: the prompt composer and the form/chat session of [main.py]

    A shallow embedding of [src/main.py] and the properties of its
    specification.  Python [str] values are sequences of Unicode code points,
    the session state is a record threaded through every script run, and the
    Streamlit control flow ([st.stop], [st.rerun]) is an outcome of a small
    monad. *)

From Stdlib Require Import List NArith Bool String Ascii Lia.
From Stdlib Require Floats.PrimFloat.
Import ListNotations.
Local Open Scope N_scope.

(** ** Python strings *)

Module PyStr.

(** A [str] is a sequence of code points. *)
Definition char := N.
Definition str := list char.

(** A string literal of the source (all literals of [main.py] that reach
    the prompt or the transcript are ASCII). *)
Definition lit (s : string) : str := map N_of_ascii (list_ascii_of_string s).

(** Truthiness of a [str]: the empty string is falsy. *)
Definition truthy (s : str) : bool :=
  match s with [] => false | _ :: _ => true end.

(** Truthiness of a value that is [None] or a [str]. *)
Definition truthy_opt (o : option str) : bool :=
  match o with None => false | Some s => truthy s end.

Definition eqb (a b : str) : bool :=
  if list_eq_dec N.eq_dec a b then true else false.

(** [sep.join(xs)] *)
Fixpoint join (sep : str) (xs : list str) : str :=
  match xs with
  | [] => []
  | x :: rest =>
      match rest with
      | [] => x
      | _ :: _ => x ++ sep ++ join sep rest
      end
  end.

(** [c.isspace()] for one code point: CPython's [_PyUnicode_IsWhitespace]
    (Unicode general category Zs, or bidirectional class WS, B or S). *)
Definition isspace (c : char) : bool :=
  ((9 <=? c) && (c <=? 13)) || ((28 <=? c) && (c <=? 32))
  || (c =? 133) || (c =? 160) || (c =? 5760)
  || ((8192 <=? c) && (c <=? 8202))
  || (c =? 8232) || (c =? 8233) || (c =? 8239) || (c =? 8287)
  || (c =? 12288).

Fixpoint lstrip (s : str) : str :=
  match s with
  | [] => []
  | c :: rest => if isspace c then lstrip rest else s
  end.

Definition rstrip (s : str) : str := rev (lstrip (rev s)).

(** [s.strip()]: leading and trailing whitespace removed. *)
Definition strip (s : str) : str := rstrip (lstrip s).

(** [s.lower()] on the ASCII letters.  Outside ASCII Python follows the
    Unicode case tables, which are not transcribed; the source lower-cases
    only values chosen from its two ASCII option lists. *)
Definition lower_char (c : char) : char :=
  if (65 <=? c) && (c <=? 90) then c + 32 else c.

Definition lower (s : str) : str := map lower_char s.

(** [s[:n]] *)
Definition slice_to (n : nat) (s : str) : str := firstn n s.

(** [s.split(c)] for a separator of one code point. *)
Fixpoint split_char (c : char) (s : str) : list str :=
  match s with
  | [] => [[]]
  | x :: rest =>
      if x =? c then [] :: split_char c rest
      else match split_char c rest with
           | [] => [[x]]
           | piece :: pieces => (x :: piece) :: pieces
           end
  end.

(** [c in s] *)
Definition contains_char (c : char) (s : str) : bool := existsb (N.eqb c) s.

End PyStr.

Import PyStr.

(** ** The prompt composer: [create_system_prompt] *)

Module Composer.

Definition NOT_SPECIFIED : str := lit "Not specified".

(** The initial value of the local [prompt_lines]. *)
Definition persona_lines : list str :=
  [ lit "You are a helpful, empathetic, and knowledgeable AI assistant specializing in providing personalized parenting tips and advice.";
    lit "Your tone should be supportive, understanding, and non-judgmental.";
    lit "Focus on practical, actionable suggestions and positive reinforcement techniques.";
    lit "Avoid overly technical jargon unless explaining a specific concept clearly.";
    lit "Respond concisely but thoroughly to user questions about parenting challenges and strategies." ].

Definition age_sentence (child_age_range : str) : str :=
  lit "The user is specifically asking for advice related to a child in the "
  ++ child_age_range
  ++ lit " age range. Tailor your advice significantly based on this developmental stage.".

Definition fallback_sentence : str :=
  lit "The user has not specified a child's age range, so provide general advice or ask for clarification if age is crucial for the specific question.".

Definition traits_sentence (traits_string : str) : str :=
  lit "The child's temperament is described as: "
  ++ traits_string
  ++ lit ". Keep these traits in mind when suggesting communication styles, activities, and discipline strategies.".

Definition challenges_sentence (stripped : str) : str :=
  lit "The parent mentioned they are currently focusing on or facing challenges with: '"
  ++ stripped
  ++ lit "'. Try to address this area proactively if relevant to the user's questions, or use it as context for your advice.".

Definition safety_sentence : str :=
  lit "Always prioritize safety and well-being in your advice. If a topic seems potentially serious (e.g., medical issues, severe behavioral problems), gently suggest consulting a professional (pediatrician, therapist, etc.).".

(** [child_age_range and child_age_range != "Not specified"] *)
Definition age_given (child_age_range : option str) : bool :=
  match child_age_range with
  | None => false
  | Some a => truthy a && negb (eqb a NOT_SPECIFIED)
  end.

(** [current_challenges and current_challenges.strip()] *)
Definition challenges_given (current_challenges : str) : bool :=
  truthy current_challenges && truthy (strip current_challenges).

(** The final value of the local list [prompt_lines]: the appends of the
    source, one after the other. *)
Definition prompt_lines (child_age_range : option str)
    (temperament_traits : list str) (current_challenges : str) : list str :=
  let prompt_lines := persona_lines in
  let prompt_lines :=
    match child_age_range with
    | Some a =>
        if truthy a && negb (eqb a NOT_SPECIFIED)
        then prompt_lines ++ [age_sentence a]
        else prompt_lines ++ [fallback_sentence]
    | None => prompt_lines ++ [fallback_sentence]
    end in
  let prompt_lines :=
    match temperament_traits with
    | [] => prompt_lines
    | _ :: _ =>
        let traits_string := join (lit ", ") temperament_traits in
        prompt_lines ++ [traits_sentence traits_string]
    end in
  let prompt_lines :=
    if challenges_given current_challenges
    then prompt_lines ++ [challenges_sentence (strip current_challenges)]
    else prompt_lines in
  prompt_lines ++ [safety_sentence].

Definition newline_char : char := 10.
Definition newline : str := [newline_char].

Definition create_system_prompt (child_age_range : option str)
    (temperament_traits : list str) (current_challenges : str) : str :=
  join newline (prompt_lines child_age_range temperament_traits current_challenges).

(** The slots of the sentence sequence, for the statements below: each
    conditional sentence fills its slot or leaves it empty. *)
Definition age_slot (child_age_range : option str) : list str :=
  match child_age_range with
  | Some a => if age_given (Some a) then [age_sentence a] else [fallback_sentence]
  | None => [fallback_sentence]
  end.

Definition traits_slot (temperament_traits : list str) : list str :=
  match temperament_traits with
  | [] => []
  | _ :: _ => [traits_sentence (join (lit ", ") temperament_traits)]
  end.

Definition challenges_slot (current_challenges : str) : list str :=
  if challenges_given current_challenges
  then [challenges_sentence (strip current_challenges)]
  else [].

(** The first twelve code points of a sentence tell the templates apart. *)
Definition sentence_head (s : str) : str := firstn 12 s.

(** No input brings a newline of its own into the prompt. *)
Definition newline_free (child_age_range : option str)
    (temperament_traits : list str) (current_challenges : str) : bool :=
  match child_age_range with
  | Some a => negb (contains_char newline_char a)
  | None => true
  end
  && forallb (fun trait => negb (contains_char newline_char trait)) temperament_traits
  && negb (contains_char newline_char (strip current_challenges)).

End Composer.

Import Composer.

(** ** The session: state, environment and the Streamlit script *)

(** The float literal of the sampling temperature, as a binary64 value. *)
Module Sampling.
Import PrimFloat.
#[local] Set Warnings "-inexact-float".
Definition temperature_literal : float := 0.7%float.
End Sampling.

Module Session.

Inductive Role := system | user | assistant.

(** A transcript entry, the dict with keys [role] and [content]. *)
Record message := { role : Role; content : str }.

(** The Groq client object; opaque, and truthy like any plain object. *)
Definition handle := N.

(** [st.session_state], once its six keys exist. *)
Record session_state := {
  form_completed : bool;
  child_age : option str;
  child_temperament : list str;
  current_challenges : str;
  messages : list message;
  client : option handle
}.

Definition DEFAULT_MODEL : str := lit "llama3-8b-8192".

(** The keyword arguments of [client.chat.completions.create]. *)
Record completion_request := {
  req_messages : list message;
  req_model : str;
  temperature : PrimFloat.float;
  max_tokens : N;
  top_p : N;
  stop : option str;
  stream : bool
}.

(** What the body of the [try] in [get_groq_response] does: it raises (the
    text is [str(e)]), or it yields the [content] of the first choice,
    which is [None] or a [str]. *)
Inductive completion_outcome :=
| Raised (e : str)
| Returned (body : option str).

(** The collaborators outside the script.  [completions_create n c r] is
    the outcome of the call with request [r] on client [c] when [n] calls
    were made before it. *)
Record environment := {
  environ_api_key : option str;
  secrets_api_key : option str;
  groq_connect : str -> str + handle;
  completions_create : nat -> handle -> completion_request -> completion_outcome
}.

(** What the page shows.  Display-only calls that neither read nor write the
    session state (page config, title, subheader, spinner, the widgets of
    the form) are left out. *)
Inductive ui_event :=
| ui_error (msg : str)
| ui_info (msg : str)
| ui_success (msg : str)
| ui_caption (msg : str)
| ui_chat_message (r : Role) (markdown : str).

(** The widget the user acted on, which triggers one execution of the
    script. *)
Inductive interaction :=
| no_interaction
| form_submit (selected_age : str) (selected_temperaments : list str)
              (challenges_input : str)
| chat_input (prompt : str)
| reset_click.

Record world := {
  sess : session_state;
  shown : list ui_event;
  calls : list (handle * completion_request)
}.

(** One execution of the script ends normally, at [st.stop()] or at
    [st.rerun()]. *)
Inductive outcome (A : Type) :=
| Done (a : A) (w : world)
| Stopped (w : world)
| Rerun (w : world).

Arguments Done {A} a w.
Arguments Stopped {A} w.
Arguments Rerun {A} w.

Definition M (A : Type) := world -> outcome A.

Definition ret {A} (a : A) : M A := fun w => Done a w.

Definition bind {A B} (c : M A) (k : A -> M B) : M B :=
  fun w =>
    match c w with
    | Done a w' => k a w'
    | Stopped w' => Stopped w'
    | Rerun w' => Rerun w'
    end.

Declare Scope script_scope.
Delimit Scope script_scope with script.
Notation "x <- c ;; k" := (bind c (fun x => k))
  (at level 61, c at next level, right associativity) : script_scope.
Notation "c ;; k" := (bind c (fun _ => k))
  (at level 61, right associativity) : script_scope.
Local Open Scope script_scope.

Definition get_session : M session_state := fun w => Done (sess w) w.

Definition modify (f : session_state -> session_state) : M unit :=
  fun w => Done tt {| sess := f (sess w); shown := shown w; calls := calls w |}.

Definition emit (e : ui_event) : M unit :=
  fun w => Done tt {| sess := sess w; shown := shown w ++ [e]; calls := calls w |}.

Definition st_stop {A} : M A := fun w => Stopped w.
Definition st_rerun {A} : M A := fun w => Rerun w.

Definition set_form_completed (v : bool) (s : session_state) :=
  {| form_completed := v; child_age := child_age s;
     child_temperament := child_temperament s;
     current_challenges := current_challenges s;
     messages := messages s; client := client s |}.

Definition set_child_age (v : option str) (s : session_state) :=
  {| form_completed := form_completed s; child_age := v;
     child_temperament := child_temperament s;
     current_challenges := current_challenges s;
     messages := messages s; client := client s |}.

Definition set_child_temperament (v : list str) (s : session_state) :=
  {| form_completed := form_completed s; child_age := child_age s;
     child_temperament := v;
     current_challenges := current_challenges s;
     messages := messages s; client := client s |}.

Definition set_current_challenges (v : str) (s : session_state) :=
  {| form_completed := form_completed s; child_age := child_age s;
     child_temperament := child_temperament s;
     current_challenges := v;
     messages := messages s; client := client s |}.

Definition set_messages (v : list message) (s : session_state) :=
  {| form_completed := form_completed s; child_age := child_age s;
     child_temperament := child_temperament s;
     current_challenges := current_challenges s;
     messages := v; client := client s |}.

Definition set_client (v : option handle) (s : session_state) :=
  {| form_completed := form_completed s; child_age := child_age s;
     child_temperament := child_temperament s;
     current_challenges := current_challenges s;
     messages := messages s; client := v |}.

(** [st.session_state.messages.append(m)] *)
Definition append_message (m : message) (s : session_state) :=
  set_messages (messages s ++ [m]) s.

(** *** Helper functions of the source *)

Definition initialize_groq_client (env : environment) : M handle :=
  let api_key := environ_api_key env in
  let api_key :=
    if negb (truthy_opt api_key)
    then match secrets_api_key env with
         | Some k => Some k
         | None => api_key
         end
    else api_key in
  match api_key with
  | Some k =>
      if truthy k
      then match groq_connect env k with
           | inr c => ret c
           | inl e =>
               emit (ui_error
                 (lit "Failed to initialize or connect with Groq client: " ++ e)) ;;
               st_stop
           end
      else
        emit (ui_error (lit "Groq API key not found. Please set GROQ_API_KEY in your environment variables or Streamlit secrets.")) ;;
        st_stop
  | None =>
      emit (ui_error (lit "Groq API key not found. Please set GROQ_API_KEY in your environment variables or Streamlit secrets.")) ;;
      st_stop
  end.

Definition make_request (msgs : list message) (model : str) : completion_request :=
  {| req_messages := msgs;
     req_model := model;
     temperature := Sampling.temperature_literal;
     max_tokens := 1500;
     top_p := 1;
     stop := None;
     stream := false |}.

(** The remote call: the request is recorded, the environment answers. *)
Definition chat_completions_create (env : environment) (c : handle)
    (r : completion_request) : M completion_outcome :=
  fun w =>
    Done (completions_create env (List.length (calls w)) c r)
         {| sess := sess w; shown := shown w; calls := calls w ++ [(c, r)] |}.

Definition get_groq_response (env : environment) (c : handle)
    (msgs : list message) (model : str) : M (option str) :=
  out <- chat_completions_create env c (make_request msgs model) ;;
  match out with
  | Returned body => ret body
  | Raised e =>
      emit (ui_error (lit "An error occurred while communicating with Groq: " ++ e)) ;;
      ret None
  end.

(** *** The script *)

Definition initial_session_state : session_state :=
  {| form_completed := false;
     child_age := None;
     child_temperament := [];
     current_challenges := [];
     messages := [];
     client := None |}.

(** The session store between two executions: [None] before the first one,
    when the key [form_completed] is not in [st.session_state] yet. *)
Definition session_store := option session_state.

(** The block [if "form_completed" not in st.session_state]. *)
Definition initialize_session_state (store : session_store) : session_state :=
  match store with
  | None => initial_session_state
  | Some s => s
  end.

Definition age_options : list str :=
  [ lit "Not specified"; lit "Newborn (0-3 months)"; lit "Infant (3-12 months)";
    lit "Toddler (1-3 years)"; lit "Preschooler (3-5 years)";
    lit "School-Age (6-12 years)"; lit "Teenager (13+ years)" ].

Definition temperament_options : list str :=
  [ lit "Easygoing / Adaptable"; lit "Active / Energetic"; lit "Shy / Cautious";
    lit "Intense / Sensitive"; lit "Distractible"; lit "Persistent / Strong-willed" ].

(** Branch 1: the form. *)
Definition form_page (ev : interaction) : M unit :=
  emit (ui_info (lit "Tell us a bit about your child to receive more personalized advice.")) ;;
  match ev with
  | form_submit selected_age selected_temperaments challenges_input =>
      modify (set_child_age (Some selected_age)) ;;
      modify (set_child_temperament selected_temperaments) ;;
      modify (set_current_challenges challenges_input) ;;
      modify (set_form_completed true) ;;
      emit (ui_success (lit "Thanks! Setting up your personalized chat...")) ;;
      st_rerun
  | _ => ret tt
  end.

(** The welcome text: [" ".join(welcome_message_parts)]. *)
Definition welcome_message (s : session_state) : str :=
  let welcome_message_parts := [lit "Hello! I'm ready to help with parenting tips"] in
  let welcome_message_parts :=
    match child_age s with
    | Some a =>
        if truthy a && negb (eqb a NOT_SPECIFIED)
        then welcome_message_parts ++ [lit "for your " ++ lower a]
        else welcome_message_parts
    | None => welcome_message_parts
    end in
  let welcome_message_parts :=
    match child_temperament s with
    | [] => welcome_message_parts
    | _ :: _ =>
        let temperament_str := lower (join (lit ", ") (child_temperament s)) in
        welcome_message_parts ++ [lit " (described as " ++ temperament_str ++ lit ")"]
    end in
  let welcome_message_parts := welcome_message_parts ++ [lit "."] in
  let welcome_message_parts :=
    if challenges_given (current_challenges s)
    then welcome_message_parts
           ++ [lit " I see you're interested in '"
               ++ strip (current_challenges s) ++ lit "'."]
    else welcome_message_parts in
  let welcome_message_parts :=
    welcome_message_parts ++ [lit " How can I assist you today?"] in
  join (lit " ") welcome_message_parts.

(** The block guarded by [st.session_state.client is None]. *)
Definition initialize_chat (env : environment) : M unit :=
  s <- get_session ;;
  match client s with
  | Some _ => ret tt
  | None =>
      c <- initialize_groq_client env ;;
      modify (set_client (Some c)) ;;
      s <- get_session ;;
      match messages s with
      | _ :: _ => ret tt
      | [] =>
          let system_prompt :=
            create_system_prompt (child_age s) (child_temperament s)
                                 (current_challenges s) in
          modify (set_messages [ {| role := system; content := system_prompt |} ]) ;;
          s <- get_session ;;
          modify (append_message {| role := assistant; content := welcome_message s |})
      end
  end.

(** [f"{x}"] for a value that is [None] or a [str]. *)
Definition format_value (o : option str) : str :=
  match o with
  | None => lit "None"
  | Some a => a
  end.

Definition context_summary (s : session_state) : str :=
  let context_summary := lit "Child Age: " ++ format_value (child_age s) in
  let context_summary :=
    match child_temperament s with
    | [] => context_summary
    | _ :: _ =>
        context_summary ++ lit " | Temperament: "
          ++ join (lit ", ") (child_temperament s)
    end in
  if challenges_given (current_challenges s)
  then context_summary ++ lit " | Focus: "
         ++ slice_to 50 (strip (current_challenges s)) ++ lit "..."
  else context_summary.

(** The loop over [st.session_state.messages] that renders the transcript. *)
Fixpoint display_messages (ms : list message) : M unit :=
  match ms with
  | [] => ret tt
  | m :: rest =>
      match role m with
      | system => ret tt
      | _ => emit (ui_chat_message (role m) (content m))
      end ;;
      display_messages rest
  end.

(** The block [if prompt:] of the chat input. *)
Definition handle_user_input (env : environment) (c : handle)
    (ev : interaction) : M unit :=
  match ev with
  | chat_input prompt =>
      if truthy prompt
      then
        modify (append_message {| role := user; content := prompt |}) ;;
        emit (ui_chat_message user prompt) ;;
        s <- get_session ;;
        let messages_for_api := messages s in
        assistant_response <- get_groq_response env c messages_for_api DEFAULT_MODEL ;;
        match assistant_response with
        | Some r =>
            if truthy r
            then
              modify (append_message {| role := assistant; content := r |}) ;;
              emit (ui_chat_message assistant r)
            else ret tt
        | None => ret tt
        end
      else ret tt
  | _ => ret tt
  end.

(** The body of the reset button, assignment by assignment. *)
Definition reset_session_state : M unit :=
  modify (set_form_completed false) ;;
  modify (set_child_age None) ;;
  modify (set_child_temperament []) ;;
  modify (set_current_challenges []) ;;
  modify (set_messages []) ;;
  modify (set_client None).

(** The context captions, the transcript and the chat input. *)
Definition display_chat (env : environment) (ev : interaction) : M unit :=
  s <- get_session ;;
  emit (ui_caption (lit "Context: " ++ context_summary s)) ;;
  emit (ui_caption (lit "Powered by Groq (" ++ DEFAULT_MODEL ++ lit ")")) ;;
  match client s with
  | Some c =>
      display_messages (messages s) ;;
      handle_user_input env c ev
  | None =>
      emit (ui_error (lit "Chatbot could not be initialized. Please check API key and connection."))
  end.

(** The reset button of the sidebar. *)
Definition reset_button (ev : interaction) : M unit :=
  match ev with
  | reset_click => reset_session_state ;; st_rerun
  | _ => ret tt
  end.

(** Branch 2: the chat. *)
Definition chat_page (env : environment) (ev : interaction) : M unit :=
  initialize_chat env ;;
  display_chat env ev ;;
  reset_button ev.

Definition script (env : environment) (ev : interaction) : M unit :=
  s <- get_session ;;
  if negb (form_completed s) then form_page ev else chat_page env ev.

Definition final_world {A} (o : outcome A) : world :=
  match o with
  | Done _ w => w
  | Stopped w => w
  | Rerun w => w
  end.

(** One execution of the script on the stored session. *)
Definition run_script (env : environment) (ev : interaction)
    (store : session_store) : outcome unit :=
  script env ev
    {| sess := initialize_session_state store; shown := []; calls := [] |}.

(** What one interaction does: the script runs, and where it ends in
    [st.rerun()] it runs once more with no widget acted on. *)
Definition on_interaction (env : environment) (ev : interaction)
    (store : session_store) : world :=
  match run_script env ev store with
  | Rerun w => final_world (script env no_interaction w)
  | o => final_world o
  end.

(** The session stores a session can be in between two interactions. *)
Inductive reachable : session_store -> Prop :=
| reachable_fresh : reachable None
| reachable_step env ev store :
    reachable store ->
    reachable (Some (sess (on_interaction env ev store))).

(** *** Notions used by the statements *)

(** Client acquisition succeeds with client [c], whatever the page and the
    session hold. *)
Definition client_acquired (env : environment) (c : handle) : Prop :=
  forall w, initialize_groq_client env w = Done c w.

(** Client acquisition halts the script, after showing the error [msg]. *)
Definition client_refused (env : environment) (msg : str) : Prop :=
  forall w,
    initialize_groq_client env w
    = Stopped {| sess := sess w; shown := shown w ++ [ui_error msg]; calls := calls w |}.

(** The rendered transcript: every message but those of role [system]. *)
Definition rendered_view (ms : list message) : list ui_event :=
  map (fun m => ui_chat_message (role m) (content m))
      (filter (fun m => match role m with system => false | _ => true end) ms).

(** While the form is not completed the session holds its defaults. *)
Definition form_pending_is_initial (s : session_state) : Prop :=
  form_completed s = false -> s = initial_session_state.

(** The remote calls of one execution of the chat page that starts in [w]
    and ends in [w']: none, or the single call of a chat turn, whose message
    sequence is the transcript that ends in the user's new message and to
    which at most the reply is appended afterwards. *)
Definition remote_calls_of_turn (ev : interaction) (w w' : world) : Prop :=
  calls w' = calls w
  \/ exists c prompt before,
       ev = chat_input prompt
       /\ calls w'
          = calls w
            ++ [(c, make_request (before ++ [ {| role := user; content := prompt |} ])
                                 DEFAULT_MODEL)]
       /\ (messages (sess w') = before ++ [ {| role := user; content := prompt |} ]
           \/ exists reply,
                messages (sess w')
                = (before ++ [ {| role := user; content := prompt |} ])
                  ++ [ {| role := assistant; content := reply |} ]).

Definition is_error (e : ui_event) : bool :=
  match e with
  | ui_error _ => true
  | _ => false
  end.

(** The welcome message as the specification words it (section 4.1): the
    clauses in their fixed order, to be concatenated.  Every clause after
    the greeting starts with the space that [" ".join] puts between two
    parts, in front of the text of the part itself. *)
Definition welcome_clauses (age_range : str) (traits : list str)
    (challenges : str) : list str :=
  [lit "Hello! I'm ready to help with parenting tips"]
  ++ (if eqb age_range NOT_SPECIFIED then []
      else [lit " for your " ++ lower age_range])
  ++ match traits with
     | [] => []
     | _ :: _ =>
         [lit "  (described as " ++ join (lit ", ") (map lower traits) ++ lit ")"]
     end
  ++ [lit " ."]
  ++ match strip challenges with
     | [] => []
     | _ :: _ => [lit "  I see you're interested in '" ++ strip challenges ++ lit "'."]
     end
  ++ [lit "  How can I assist you today?"].

(** An environment for concrete runs: the key is in the process
    environment, the service answers the connectivity probe with client 1,
    and every completion call has the outcome [out]. *)
Definition sample_environment (out : completion_outcome) : environment :=
  {| environ_api_key := Some (lit "gsk_sample");
     secrets_api_key := None;
     groq_connect := fun _ => inr 1;
     completions_create := fun _ _ _ => out |}.

(** A session in the chat: the form completed with a toddler's details, the
    client acquired, the transcript holding the system and welcome messages. *)
Definition sample_chat_session : session_state :=
  sess (on_interaction (sample_environment (Returned None))
          (form_submit (lit "Toddler (1-3 years)") [lit "Shy / Cautious"] [])
          None).

(** *** Notions used by the further properties *)

Definition is_system (m : message) : bool :=
  match role m with
  | system => true
  | _ => false
  end.

(** The session right after the chat is initialised with client [c]: the
    three assignments of the block guarded by [client is None]. *)
Definition started_session (c : handle) (s : session_state) : session_state :=
  let s := set_client (Some c) s in
  let s :=
    set_messages
      [ {| role := system;
           content := create_system_prompt (child_age s) (child_temperament s)
                        (current_challenges s) |} ]
      s in
  append_message {| role := assistant; content := welcome_message s |} s.

(** Without a client the transcript is empty; with one it opens with the
    system message composed from the stored form answers and the welcome
    message, and holds no other system message. *)
Definition transcript_well_formed (s : session_state) : Prop :=
  match client s with
  | None => messages s = []
  | Some _ =>
      exists rest,
        messages s
        = {| role := system;
             content := create_system_prompt (child_age s) (child_temperament s)
                          (current_challenges s) |}
          :: {| role := assistant; content := welcome_message s |}
          :: rest
        /\ forallb (fun m => negb (is_system m)) rest = true
  end.

(** What holds of the session between two interactions. *)
Definition session_invariant (s : session_state) : Prop :=
  form_pending_is_initial s
  /\ transcript_well_formed s
  /\ (form_completed s = true -> child_age s <> None).

(** What an execution of the chat page that does not reset may do to the
    session: the form answers stay, the transcript only grows, a client that
    is there stays, and a well-formed transcript stays well-formed. *)
Definition chat_progress (s s' : session_state) : Prop :=
  form_completed s' = form_completed s
  /\ child_age s' = child_age s
  /\ child_temperament s' = child_temperament s
  /\ current_challenges s' = current_challenges s
  /\ (exists extra, messages s' = messages s ++ extra)
  /\ (forall c, client s = Some c -> client s' = Some c)
  /\ (transcript_well_formed s -> transcript_well_formed s').

(** The two errors of [initialize_groq_client] and the error of the [else]
    branch of [if st.session_state.client]. *)
Definition KEY_NOT_FOUND : str :=
  lit "Groq API key not found. Please set GROQ_API_KEY in your environment variables or Streamlit secrets.".

Definition connect_failed (e : str) : str :=
  lit "Failed to initialize or connect with Groq client: " ++ e.

Definition NOT_INITIALIZED : str :=
  lit "Chatbot could not be initialized. Please check API key and connection.".

(** Events no execution is to show: a chat bubble for a system message, and
    the error of the [else] branch above. *)
Definition never_shown (e : ui_event) : bool :=
  match e with
  | ui_chat_message system _ => true
  | ui_error msg => eqb msg NOT_INITIALIZED
  | _ => false
  end.


End Session.

Arguments PyStr.lit : simpl never.
Arguments Composer.create_system_prompt : simpl never.
Arguments Session.welcome_message : simpl never.
Arguments Session.context_summary : simpl never.


Import Session.

(** * Facts about Python strings *)

Section StringFacts.

Lemma truthy_nonempty (s : str) : truthy s = true <-> s <> [].
Proof. destruct s; simpl; split; congruence. Qed.

Lemma truthy_false_empty (s : str) : truthy s = false <-> s = [].
Proof. destruct s; simpl; split; congruence. Qed.

Lemma eqb_eq (a b : str) : eqb a b = true <-> a = b.
Proof. unfold eqb. destruct (list_eq_dec N.eq_dec a b); split; congruence. Qed.

Lemma eqb_neq (a b : str) : eqb a b = false <-> a <> b.
Proof. unfold eqb. destruct (list_eq_dec N.eq_dec a b); split; congruence. Qed.

Lemma contains_char_In (c : char) (s : str) :
  contains_char c s = false <-> ~ In c s.
Proof.
  unfold contains_char. induction s as [|x s IH]; simpl.
  - tauto.
  - rewrite orb_false_iff, IH, N.eqb_neq. intuition congruence.
Qed.

Lemma contains_char_app (c : char) (s1 s2 : str) :
  contains_char c (s1 ++ s2) = contains_char c s1 || contains_char c s2.
Proof. unfold contains_char. apply existsb_app. Qed.

(** *** [join] *)

Lemma join_cons (sep x y : str) (rest : list str) :
  join sep (x :: y :: rest) = x ++ sep ++ join sep (y :: rest).
Proof. reflexivity. Qed.

(** *** [split_char] *)

Lemma split_char_nonempty (c : char) (s : str) : split_char c s <> [].
Proof.
  induction s as [|x s IH]; simpl; [discriminate|].
  destruct (x =? c); [discriminate|].
  destruct (split_char c s); discriminate.
Qed.

Lemma split_char_prefix (c : char) (p s : str) :
  ~ In c p ->
  split_char c (p ++ s) =
  (p ++ hd [] (split_char c s)) :: tl (split_char c s).
Proof.
  induction p as [|x p IH]; intros Hp; simpl.
  - pose proof (split_char_nonempty c s) as Hne.
    destruct (split_char c s); [congruence | reflexivity].
  - destruct (N.eqb_spec x c) as [->|_]; [exfalso; apply Hp; left; reflexivity|].
    rewrite IH by (intros H; apply Hp; right; exact H). reflexivity.
Qed.

Lemma split_char_free (c : char) (s : str) : ~ In c s -> split_char c s = [s].
Proof.
  intros H. rewrite <- (app_nil_r s) at 1.
  rewrite split_char_prefix by exact H. simpl. rewrite app_nil_r. reflexivity.
Qed.

Lemma split_char_sep (c : char) (s : str) :
  split_char c (c :: s) = [] :: split_char c s.
Proof. simpl. rewrite N.eqb_refl. reflexivity. Qed.

(** Splitting a joined list at the first code point of the separator gives
    the elements back, in order; every element but the first keeps the rest
    of the separator in front. *)
Lemma split_char_join (c : char) (sep' : str) (x : str) (rest : list str) :
  ~ In c sep' -> Forall (fun y => ~ In c y) (x :: rest) ->
  split_char c (join (c :: sep') (x :: rest)) = x :: map (app sep') rest.
Proof.
  intros Hsep. revert x. induction rest as [|y rest IH]; intros x Hall.
  - simpl. apply split_char_free. inversion Hall; assumption.
  - rewrite join_cons. inversion Hall as [|? ? Hx Hrest]; subst.
    rewrite split_char_prefix by exact Hx.
    change ((c :: sep') ++ join (c :: sep') (y :: rest))
      with (c :: (sep' ++ join (c :: sep') (y :: rest))).
    rewrite split_char_sep. cbn [hd tl]. rewrite app_nil_r.
    rewrite split_char_prefix by exact Hsep.
    rewrite (IH y Hrest). reflexivity.
Qed.

(** *** [strip] *)

Lemma lstrip_spec (s : str) :
  exists pre, s = pre ++ lstrip s /\ forallb isspace pre = true
              /\ match lstrip s with [] => True | x :: _ => isspace x = false end.
Proof.
  induction s as [|x s (pre & E & Hpre & Hhd)]; simpl.
  - exists []. auto.
  - destruct (isspace x) eqn:Hx.
    + exists (x :: pre). simpl. rewrite Hx, Hpre. split; [congruence | auto].
    + exists []. simpl. auto.
Qed.

Lemma forallb_rev (f : char -> bool) (s : str) :
  forallb f (rev s) = forallb f s.
Proof.
  induction s as [|x s IH]; simpl; [reflexivity|].
  rewrite forallb_app, IH. simpl. rewrite andb_true_r. apply andb_comm.
Qed.

(** [strip] cuts a whitespace prefix and a whitespace suffix off, and what
    is left neither starts nor ends with whitespace. *)
Lemma strip_spec (s : str) :
  exists pre post,
    s = pre ++ strip s ++ post
    /\ forallb isspace pre = true /\ forallb isspace post = true
    /\ (forall x rest, strip s = x :: rest -> isspace x = false)
    /\ (forall front x, strip s = front ++ [x] -> isspace x = false).
Proof.
  unfold strip, rstrip.
  destruct (lstrip_spec s) as (pre & E1 & Hpre & Hhd).
  destruct (lstrip_spec (rev (lstrip s))) as (q & E2 & Hq & Hlast).
  set (m := lstrip s) in *. set (k := lstrip (rev m)) in *.
  assert (Em : m = rev k ++ rev q).
  { rewrite <- rev_app_distr, <- E2, rev_involutive. reflexivity. }
  exists pre, (rev q). repeat split.
  - rewrite <- Em. exact E1.
  - exact Hpre.
  - rewrite forallb_rev. exact Hq.
  - intros x rest Hk. rewrite Hk in Em. rewrite Em in Hhd. exact Hhd.
  - intros front x Hk. apply (f_equal (@rev _)) in Hk.
    rewrite rev_involutive, rev_app_distr in Hk. simpl in Hk.
    rewrite Hk in Hlast. exact Hlast.
Qed.

Lemma strip_nil : strip [] = [].
Proof. reflexivity. Qed.

Lemma challenges_given_iff (c : str) :
  challenges_given c = true <-> strip c <> [].
Proof.
  unfold challenges_given. rewrite andb_true_iff, !truthy_nonempty.
  split; [tauto|]. intros H. split; [|exact H].
  intros ->. apply H. reflexivity.
Qed.

(** *** [lower] *)

Lemma lower_app (a b : str) : lower (a ++ b) = lower a ++ lower b.
Proof. apply map_app. Qed.

Lemma lower_join (sep : str) (xs : list str) :
  lower (join sep xs) = join (lower sep) (map lower xs).
Proof.
  induction xs as [|x [|y rest] IH]; try reflexivity.
  rewrite join_cons, !lower_app, IH. reflexivity.
Qed.

End StringFacts.

(** * The prompt composer *)

Section ComposerFacts.

Lemma prompt_lines_slots a t c :
  prompt_lines a t c =
  persona_lines ++ age_slot a ++ traits_slot t ++ challenges_slot c
    ++ [safety_sentence].
Proof.
  unfold prompt_lines, age_slot, traits_slot, challenges_slot, age_given.
  destruct a as [s|]; [destruct (truthy s && negb (eqb s NOT_SPECIFIED)) |];
    destruct t as [|t0 t']; destruct (challenges_given c);
    rewrite <- ?app_assoc; reflexivity.
Qed.

Lemma age_given_iff (a : option str) :
  age_given a = true <-> exists s, a = Some s /\ s <> [] /\ s <> NOT_SPECIFIED.
Proof.
  destruct a as [s|]; simpl.
  - rewrite andb_true_iff, negb_true_iff, truthy_nonempty, eqb_neq.
    split.
    + intros [H1 H2]. exists s. auto.
    + intros (s' & E & H1 & H2). inversion E; subst. auto.
  - split; [discriminate|]. intros (s & E & _). discriminate.
Qed.

Lemma age_sentence_inj (x y : str) : age_sentence x = age_sentence y -> x = y.
Proof.
  unfold age_sentence. intros H.
  apply app_inv_head in H. apply app_inv_tail in H. exact H.
Qed.

Lemma traits_sentence_inj (x y : str) :
  traits_sentence x = traits_sentence y -> x = y.
Proof.
  unfold traits_sentence. intros H.
  apply app_inv_head in H. apply app_inv_tail in H. exact H.
Qed.

Lemma challenges_sentence_inj (x y : str) :
  challenges_sentence x = challenges_sentence y -> x = y.
Proof.
  unfold challenges_sentence. intros H.
  apply app_inv_head in H. apply app_inv_tail in H. exact H.
Qed.

End ComposerFacts.

(** Two sentences built from different templates differ within their first
    twelve code points. *)
Ltac head_clash :=
  match goal with
  | H : @eq str _ _ |- _ =>
      apply (f_equal sentence_head) in H; vm_compute in H; discriminate H
  end.

(** Membership in the sentence sequence, slot by slot. *)
Ltac split_slots H :=
  rewrite prompt_lines_slots in H;
  unfold persona_lines, age_slot, traits_slot, challenges_slot in H;
  repeat (rewrite in_app_iff in H); cbn [In] in H.

Section SentenceMembership.

Variables (a : option str) (t : list str) (c : str).

Lemma in_age_sentence (x : str) :
  In (age_sentence x) (prompt_lines a t c) <-> a = Some x /\ age_given a = true.
Proof.
  split.
  - intros H. split_slots H.
    destruct a as [s|]; [destruct (age_given (Some s)) eqn:Hg|];
      destruct t; destruct (challenges_given c); cbn [In] in H;
      decompose [or] H; try contradiction; try head_clash.
    all: match goal with E : age_sentence _ = age_sentence _ |- _ =>
           apply age_sentence_inj in E; subst; auto end.
  - intros [-> Hg]. rewrite prompt_lines_slots. unfold age_slot. rewrite Hg.
    rewrite !in_app_iff. right; left. left. reflexivity.
Qed.

Lemma in_fallback_sentence :
  In fallback_sentence (prompt_lines a t c) <-> age_given a = false.
Proof.
  split.
  - intros H. split_slots H.
    destruct a as [s|]; [destruct (age_given (Some s)) eqn:Hg|];
      destruct t; destruct (challenges_given c); cbn [In] in H;
      decompose [or] H; try contradiction; try head_clash; reflexivity.
  - intros Hg. rewrite prompt_lines_slots. unfold age_slot.
    rewrite !in_app_iff. right; left.
    destruct a as [s|]; [rewrite Hg|]; left; reflexivity.
Qed.

Lemma in_traits_sentence (x : str) :
  In (traits_sentence x) (prompt_lines a t c) <->
  t <> [] /\ x = join (lit ", ") t.
Proof.
  split.
  - intros H. split_slots H.
    destruct a as [s|]; [destruct (age_given (Some s)) eqn:Hg|];
      destruct t; destruct (challenges_given c); cbn [In] in H;
      decompose [or] H; try contradiction; try head_clash.
    all: match goal with E : traits_sentence _ = traits_sentence _ |- _ =>
           apply traits_sentence_inj in E; subst; split; [discriminate|reflexivity] end.
  - intros [Hne ->]. rewrite prompt_lines_slots. unfold traits_slot.
    rewrite !in_app_iff. right; right; left.
    destruct t; [congruence | left; reflexivity].
Qed.

Lemma in_challenges_sentence (x : str) :
  In (challenges_sentence x) (prompt_lines a t c) <->
  challenges_given c = true /\ x = strip c.
Proof.
  split.
  - intros H. split_slots H.
    destruct a as [s|]; [destruct (age_given (Some s)) eqn:Hg|];
      destruct t; destruct (challenges_given c); cbn [In] in H;
      decompose [or] H; try contradiction; try head_clash.
    all: match goal with E : challenges_sentence _ = challenges_sentence _ |- _ =>
           apply challenges_sentence_inj in E; subst; auto end.
  - intros [Hg ->]. rewrite prompt_lines_slots. unfold challenges_slot.
    rewrite Hg, !in_app_iff. right; right; right; left. left. reflexivity.
Qed.

End SentenceMembership.

Section OutputLines.

Lemma join_free (c : char) (sep : str) (xs : list str) :
  ~ In c sep -> Forall (fun x => ~ In c x) xs -> ~ In c (join sep xs).
Proof.
  intros Hsep. induction xs as [|x [|y rest] IH]; intros Hall.
  - simpl. tauto.
  - simpl. inversion Hall; assumption.
  - rewrite join_cons, !in_app_iff. inversion Hall as [|? ? Hx Hrest]; subst.
    specialize (IH Hrest). tauto.
Qed.

Lemma fixed_free (c : char) (s : str) : contains_char c s = false -> ~ In c s.
Proof. apply contains_char_In. Qed.

Lemma persona_lines_free :
  Forall (fun x => ~ In newline_char x) persona_lines.
Proof. repeat constructor; apply fixed_free; vm_compute; reflexivity. Qed.

Lemma age_sentence_free (s : str) :
  ~ In newline_char s -> ~ In newline_char (age_sentence s).
Proof.
  intros H. unfold age_sentence. rewrite !in_app_iff. intros [F|[F|F]]; auto;
    revert F; apply fixed_free; vm_compute; reflexivity.
Qed.

Lemma traits_sentence_free (s : str) :
  ~ In newline_char s -> ~ In newline_char (traits_sentence s).
Proof.
  intros H. unfold traits_sentence. rewrite !in_app_iff. intros [F|[F|F]]; auto;
    revert F; apply fixed_free; vm_compute; reflexivity.
Qed.

Lemma challenges_sentence_free (s : str) :
  ~ In newline_char s -> ~ In newline_char (challenges_sentence s).
Proof.
  intros H. unfold challenges_sentence. rewrite !in_app_iff. intros [F|[F|F]]; auto;
    revert F; apply fixed_free; vm_compute; reflexivity.
Qed.

(** Where no input holds a newline, the lines of the output are the
    sentences of [prompt_lines], one per line. *)
Lemma create_system_prompt_lines (a : option str) (t : list str) (c : str) :
  newline_free a t c = true ->
  split_char newline_char (create_system_prompt a t c) = prompt_lines a t c.
Proof.
  unfold newline_free. rewrite !andb_true_iff, forallb_forall, negb_true_iff.
  intros [[Ha Ht] Hc]. apply contains_char_In in Hc.
  unfold create_system_prompt, newline.
  assert (Hall : Forall (fun x => ~ In newline_char x) (prompt_lines a t c)).
  { rewrite prompt_lines_slots. rewrite !Forall_app. repeat split.
    - exact persona_lines_free.
    - unfold age_slot. destruct a as [s|];
        [destruct (age_given (Some s))|]; repeat constructor;
        try (apply age_sentence_free, contains_char_In, negb_true_iff, Ha);
        apply fixed_free; vm_compute; reflexivity.
    - unfold traits_slot. destruct t as [|t0 t']; repeat constructor.
      apply traits_sentence_free, join_free.
      + apply fixed_free; vm_compute; reflexivity.
      + apply Forall_forall. intros x Hx.
        apply contains_char_In, negb_true_iff, Ht, Hx.
    - unfold challenges_slot. destruct (challenges_given c); repeat constructor.
      apply challenges_sentence_free, Hc.
    - repeat constructor. apply fixed_free; vm_compute; reflexivity. }
  destruct (prompt_lines a t c) as [|x rest] eqn:E.
  - rewrite prompt_lines_slots in E. discriminate E.
  - rewrite split_char_join; [| simpl; tauto | exact Hall].
    f_equal. rewrite <- (map_id rest) at 2. apply map_ext. reflexivity.
Qed.

End OutputLines.

(** * The properties of the prompt composer *)

(** C1, as the specification words it: the sentence sequence for the
    submission (Not specified, no traits, blank challenges) is not four
    persona sentences followed by the fallback and the safety sentence. *)
Lemma scenario_B_not_four_persona_sentences :
  ~ exists p1 p2 p3 p4 : str,
      prompt_lines (Some NOT_SPECIFIED) [] (lit "  ")
      = [p1; p2; p3; p4; fallback_sentence; safety_sentence].
Proof.
  intros (p1 & p2 & p3 & p4 & H).
  apply (f_equal (@List.length str)) in H. vm_compute in H. discriminate H.
Qed.

(** C1, amended: for the submission (Not specified, no traits, blank
    challenges) the prompt is the five fixed persona sentences, the fallback
    age sentence and the closing safety sentence, one per line and nothing
    else: no age-tailoring, traits or challenges sentence. *)
Theorem scenario_B_prompt :
  let lines := prompt_lines (Some NOT_SPECIFIED) [] (lit "  ") in
  let output := create_system_prompt (Some NOT_SPECIFIED) [] (lit "  ") in
  lines = persona_lines ++ [fallback_sentence; safety_sentence]
  /\ List.length persona_lines = 5%nat
  /\ output = join newline (persona_lines ++ [fallback_sentence; safety_sentence])
  /\ split_char newline_char output
     = persona_lines ++ [fallback_sentence; safety_sentence]
  /\ (forall x, ~ In (age_sentence x) lines)
  /\ (forall x, ~ In (traits_sentence x) lines)
  /\ (forall x, ~ In (challenges_sentence x) lines).
Proof.
  cbv zeta. split; [|split; [|split; [|split; [|split; [|split]]]]].
  - reflexivity.
  - reflexivity.
  - reflexivity.
  - vm_compute. reflexivity.
  - intros x H. apply in_age_sentence in H. destruct H as [_ H].
    vm_compute in H. discriminate H.
  - intros x H. apply in_traits_sentence in H. destruct H as [H _].
    apply H. reflexivity.
  - intros x H. apply in_challenges_sentence in H. destruct H as [H _].
    vm_compute in H. discriminate H.
Qed.

(** C2: for an age range of the form's list, or none at all, the sentence
    sequence of the prompt holds an age-tailoring sentence exactly when the
    age range is present and is not "Not specified"; that sentence names the
    submitted age range, and otherwise the fallback sentence stands in its
    place.  The sentences are the lines of the output. *)
Theorem age_sentence_iff_specified (a : option str) (t : list str) (c : str) :
  In a (None :: map Some age_options) ->
  let lines := prompt_lines a t c in
  ((exists x, In (age_sentence x) lines) <-> a <> None /\ a <> Some NOT_SPECIFIED)
  /\ (forall x, In (age_sentence x) lines -> a = Some x)
  /\ (In fallback_sentence lines <-> ~ (a <> None /\ a <> Some NOT_SPECIFIED))
  /\ (In fallback_sentence lines <-> ~ exists x, In (age_sentence x) lines)
  /\ create_system_prompt a t c = join newline lines
  /\ (newline_free a t c = true ->
      split_char newline_char (create_system_prompt a t c) = lines).
Proof.
  intros Hdom lines.
  assert (Hg : age_given a = true <-> a <> None /\ a <> Some NOT_SPECIFIED).
  { rewrite age_given_iff. split.
    - intros (s & -> & Hne & Hns). split; congruence.
    - intros [H1 H2]. destruct a as [s|]; [|congruence].
      exists s. repeat split; [|congruence].
      destruct Hdom as [E|Hin]; [discriminate E|].
      apply in_map_iff in Hin. destruct Hin as (s' & E & Hin). inversion E; subst s'.
      cbn [age_options In] in Hin.
      decompose [or] Hin; try contradiction; subst s; discriminate. }
  assert (Hex : (exists x, In (age_sentence x) lines) <-> age_given a = true).
  { split.
    - intros (x & H). apply in_age_sentence in H. tauto.
    - intros H. destruct (proj1 (age_given_iff a) H) as (s & E & _).
      exists s. apply in_age_sentence. auto. }
  assert (Hfb : In fallback_sentence lines <-> age_given a = false)
    by apply in_fallback_sentence.
  split; [|split; [|split; [|split; [|split]]]].
  - rewrite Hex. exact Hg.
  - intros x H. apply in_age_sentence in H. tauto.
  - rewrite Hfb, <- Hg. destruct (age_given a); split; congruence.
  - rewrite Hfb, Hex. destruct (age_given a); split; congruence.
  - reflexivity.
  - apply create_system_prompt_lines.
Qed.

Lemma age_sentence_iff_specified_witness :
  In (Some (lit "Toddler (1-3 years)")) (None :: map Some age_options)
  /\ ((exists x, In (age_sentence x)
                    (prompt_lines (Some (lit "Toddler (1-3 years)"))
                                  [lit "Shy / Cautious"] []))
      <-> Some (lit "Toddler (1-3 years)") <> None
          /\ Some (lit "Toddler (1-3 years)") <> Some NOT_SPECIFIED).
Proof.
  assert (Hdom : In (Some (lit "Toddler (1-3 years)")) (None :: map Some age_options)).
  { right. right. right. right. left. reflexivity. }
  split; [exact Hdom|].
  exact (proj1 (age_sentence_iff_specified (Some (lit "Toddler (1-3 years)"))
                  [lit "Shy / Cautious"] [] Hdom)).
Defined.

(** C3: for every list of traits the sentence sequence of the prompt holds a
    traits sentence exactly when the list is not empty; the sentence lists
    the traits joined by ", " in the order of the input, so that splitting
    the listed text at the commas gives the traits back one by one (each but
    the first behind the separator's space).  The sentences are the lines of
    the output. *)
Theorem traits_sentence_iff_nonempty (a : option str) (t : list str) (c : str) :
  let lines := prompt_lines a t c in
  ((exists x, In (traits_sentence x) lines) <-> t <> [])
  /\ (forall x, In (traits_sentence x) lines -> x = join (lit ", ") t)
  /\ (forall first rest,
        t = first :: rest ->
        Forall (fun trait => ~ In 44 trait) t ->
        split_char 44 (join (lit ", ") t) = first :: map (app (lit " ")) rest)
  /\ create_system_prompt a t c = join newline lines
  /\ (newline_free a t c = true ->
      split_char newline_char (create_system_prompt a t c) = lines).
Proof.
  intros lines. split; [|split; [|split; [|split]]].
  - split.
    + intros (x & H). apply in_traits_sentence in H. tauto.
    + intros H. exists (join (lit ", ") t). apply in_traits_sentence. auto.
  - intros x H. apply in_traits_sentence in H. tauto.
  - intros first rest -> Hfree.
    change (lit ", ") with (44 :: lit " ").
    apply split_char_join; [|exact Hfree].
    apply fixed_free. reflexivity.
  - reflexivity.
  - apply create_system_prompt_lines.
Qed.

Lemma traits_sentence_iff_nonempty_witness :
  split_char 44 (join (lit ", ") [lit "Shy / Cautious"; lit "Distractible"])
  = [lit "Shy / Cautious"; lit " Distractible"].
Proof.
  refine (proj1 (proj2 (proj2 (traits_sentence_iff_nonempty
                                 None [lit "Shy / Cautious"; lit "Distractible"] [])))
                (lit "Shy / Cautious") [lit "Distractible"] eq_refl _).
  repeat constructor; apply fixed_free; reflexivity.
Defined.

(** C4: for every challenges text the sentence sequence of the prompt holds
    a challenges sentence exactly when the text stripped of whitespace is
    not empty; the text it quotes is the stripped text, which is the input
    without a whitespace prefix and a whitespace suffix, and never an input
    that the stripping changes.  The sentences are the lines of the
    output. *)
Theorem challenges_sentence_iff_stripped_nonempty
    (a : option str) (t : list str) (c : str) :
  let lines := prompt_lines a t c in
  ((exists x, In (challenges_sentence x) lines) <-> strip c <> [])
  /\ (forall x, In (challenges_sentence x) lines -> x = strip c)
  /\ (strip c <> c -> ~ In (challenges_sentence c) lines)
  /\ (exists pre post,
        c = pre ++ strip c ++ post
        /\ forallb isspace pre = true /\ forallb isspace post = true
        /\ (forall x rest, strip c = x :: rest -> isspace x = false)
        /\ (forall front x, strip c = front ++ [x] -> isspace x = false))
  /\ create_system_prompt a t c = join newline lines
  /\ (newline_free a t c = true ->
      split_char newline_char (create_system_prompt a t c) = lines).
Proof.
  intros lines. split; [|split; [|split; [|split; [|split]]]].
  - rewrite <- challenges_given_iff. split.
    + intros (x & H). apply in_challenges_sentence in H. tauto.
    + intros H. exists (strip c). apply in_challenges_sentence. auto.
  - intros x H. apply in_challenges_sentence in H. tauto.
  - intros Hne H. apply in_challenges_sentence in H. destruct H as [_ H]. auto.
  - apply strip_spec.
  - reflexivity.
  - apply create_system_prompt_lines.
Qed.

Lemma challenges_sentence_iff_stripped_nonempty_witness :
  ~ In (challenges_sentence (lit "  picky eating "))
       (prompt_lines None [] (lit "  picky eating "))
  /\ In (challenges_sentence (lit "picky eating"))
        (prompt_lines None [] (lit "  picky eating ")).
Proof.
  split.
  - refine (proj1 (proj2 (proj2 (challenges_sentence_iff_stripped_nonempty
                                   None [] (lit "  picky eating ")))) _).
    vm_compute. discriminate.
  - vm_compute. tauto.
Defined.

(** C5: [create_system_prompt] is a function of its three arguments: equal
    inputs give the same output, code point for code point. *)
Theorem create_system_prompt_deterministic
    (a1 a2 : option str) (t1 t2 : list str) (c1 c2 : str) :
  a1 = a2 -> t1 = t2 -> c1 = c2 ->
  create_system_prompt a1 t1 c1 = create_system_prompt a2 t2 c2.
Proof. intros -> -> ->. reflexivity. Qed.

Lemma create_system_prompt_deterministic_witness :
  create_system_prompt (Some (lit "Toddler (1-3 years)")) [lit "Shy / Cautious"] []
  = create_system_prompt (Some (lit "Toddler (1-3 years)")) [lit "Shy / Cautious"] [].
Proof.
  apply create_system_prompt_deterministic; reflexivity.
Defined.

(** * The session *)

Section ScriptRuns.

Lemma display_messages_run (ms : list message) (w : world) :
  display_messages ms w
  = Done tt {| sess := sess w; shown := shown w ++ rendered_view ms;
               calls := calls w |}.
Proof.
  revert w. induction ms as [|m ms IH]; intros [s sh cl].
  - unfold rendered_view. simpl. rewrite app_nil_r. reflexivity.
  - unfold rendered_view in *. destruct m as [r body].
    cbn [display_messages]. unfold bind.
    destruct r; cbn [role content filter map ret emit]; rewrite IH;
      cbn [sess shown calls]; rewrite <- ?app_assoc; reflexivity.
Qed.

Lemma rendered_view_no_error (ms : list message) (msg : str) :
  ~ In (ui_error msg) (rendered_view ms).
Proof.
  unfold rendered_view. intros H. apply in_map_iff in H.
  destruct H as (m & E & _). discriminate E.
Qed.

(** Client acquisition either yields a client and shows nothing, or shows
    one error and halts. *)
Lemma initialize_groq_client_cases (env : environment) :
  (exists c, client_acquired env c) \/ (exists msg, client_refused env msg).
Proof.
  unfold client_acquired, client_refused, initialize_groq_client.
  destruct (environ_api_key env) as [k|]; cbn [truthy_opt negb].
  - destruct (truthy k) eqn:Hk; cbn [negb].
    + rewrite Hk. destruct (groq_connect env k) as [e|c].
      * right. eexists. intros w. reflexivity.
      * left. exists c. intros w. reflexivity.
    + destruct (secrets_api_key env) as [k'|].
      * destruct (truthy k'); [destruct (groq_connect env k') as [e|c]|].
        -- right. eexists. intros w. reflexivity.
        -- left. exists c. intros w. reflexivity.
        -- right. eexists. intros w. reflexivity.
      * rewrite Hk. right. eexists. intros w. reflexivity.
  - destruct (secrets_api_key env) as [k'|].
    + destruct (truthy k'); [destruct (groq_connect env k') as [e|c]|].
      * right. eexists. intros w. reflexivity.
      * left. exists c. intros w. reflexivity.
      * right. eexists. intros w. reflexivity.
    + right. eexists. intros w. reflexivity.
Qed.


Variable env : environment.

Lemma initialize_chat_ready (w : world) (c : handle) :
  client (sess w) = Some c -> initialize_chat env w = Done tt w.
Proof.
  intros H. unfold initialize_chat, bind, get_session. rewrite H. reflexivity.
Qed.

Lemma initialize_chat_refused (w : world) (msg : str) :
  client (sess w) = None -> client_refused env msg ->
  initialize_chat env w
  = Stopped {| sess := sess w; shown := shown w ++ [ui_error msg];
               calls := calls w |}.
Proof.
  intros H Hr. unfold initialize_chat, bind, get_session. rewrite H, Hr.
  reflexivity.
Qed.

(** The transcript the chat starts with. *)
Lemma initialize_chat_first (w : world) (c : handle) :
  client (sess w) = None -> client_acquired env c -> messages (sess w) = [] ->
  initialize_chat env w
  = Done tt
      {| sess :=
           let s := set_client (Some c) (sess w) in
           let s := set_messages
                      [ {| role := system;
                           content := create_system_prompt (child_age s)
                                        (child_temperament s) (current_challenges s) |} ]
                      s in
           append_message {| role := assistant; content := welcome_message s |} s;
         shown := shown w; calls := calls w |}.
Proof.
  intros H Ha Hm. unfold initialize_chat, bind, get_session. rewrite H, Ha.
  cbn [modify sess shown calls set_client messages]. rewrite Hm. reflexivity.
Qed.

Lemma initialize_chat_again (w : world) (c : handle) :
  client (sess w) = None -> client_acquired env c -> messages (sess w) <> [] ->
  initialize_chat env w
  = Done tt {| sess := set_client (Some c) (sess w); shown := shown w;
               calls := calls w |}.
Proof.
  intros H Ha Hm. unfold initialize_chat, bind, get_session. rewrite H, Ha.
  cbn [modify sess shown calls set_client messages].
  destruct (messages (sess w)); [congruence | reflexivity].
Qed.

(** The chat display when the event is not a chat input with text. *)
Lemma display_chat_idle (ev : interaction) (w : world) (c : handle) :
  client (sess w) = Some c ->
  (forall prompt, ev = chat_input prompt -> truthy prompt = false) ->
  display_chat env ev w
  = Done tt
      {| sess := sess w;
         shown := shown w
                  ++ [ ui_caption (lit "Context: " ++ context_summary (sess w));
                       ui_caption (lit "Powered by Groq (" ++ DEFAULT_MODEL ++ lit ")") ]
                  ++ rendered_view (messages (sess w));
         calls := calls w |}.
Proof.
  intros Hc Hev. unfold display_chat, bind, get_session, emit.
  cbn [sess shown calls]. rewrite Hc, display_messages_run. cbn [sess shown calls].
  rewrite <- !app_assoc. cbn [app].
  destruct ev as [|sa st sc|prompt|]; cbn [handle_user_input ret]; try reflexivity.
  rewrite (Hev prompt eq_refl). reflexivity.
Qed.

(** One chat turn: the user message is appended and shown, the remote call
    is made once with the transcript so far, and its outcome decides the
    rest. *)
Lemma display_chat_turn (prompt : str) (w : world) (c : handle) :
  client (sess w) = Some c -> truthy prompt = true ->
  display_chat env (chat_input prompt) w
  = Done tt
      (let s1 := append_message {| role := user; content := prompt |} (sess w) in
       let req := make_request (messages s1) DEFAULT_MODEL in
       let base :=
         shown w
         ++ [ ui_caption (lit "Context: " ++ context_summary (sess w));
              ui_caption (lit "Powered by Groq (" ++ DEFAULT_MODEL ++ lit ")") ]
         ++ rendered_view (messages (sess w))
         ++ [ui_chat_message user prompt] in
       match completions_create env (List.length (calls w)) c req with
       | Raised e =>
           {| sess := s1;
              shown := base ++ [ui_error (lit "An error occurred while communicating with Groq: " ++ e)];
              calls := calls w ++ [(c, req)] |}
       | Returned (Some r) =>
           if truthy r
           then {| sess := append_message {| role := assistant; content := r |} s1;
                   shown := base ++ [ui_chat_message assistant r];
                   calls := calls w ++ [(c, req)] |}
           else {| sess := s1; shown := base; calls := calls w ++ [(c, req)] |}
       | Returned None =>
           {| sess := s1; shown := base; calls := calls w ++ [(c, req)] |}
       end).
Proof.
  intros Hc Hp. unfold display_chat, bind, get_session, emit.
  cbn [sess shown calls]. rewrite Hc, display_messages_run. cbn [sess shown calls].
  cbn [handle_user_input]. rewrite Hp.
  unfold get_groq_response, chat_completions_create, bind, modify, emit, get_session.
  cbn [sess shown calls]. cbv zeta.
  destruct (completions_create env _ c _) as [e|[r|]]; cbn [sess shown calls ret];
    [| destruct (truthy r); cbn [sess shown calls ret] |];
    rewrite <- ?app_assoc; cbn [app]; reflexivity.
Qed.

End ScriptRuns.

Section ChatPage.

Variable env : environment.

(** The block that initialises the chat halts on a refused client, and
    otherwise leaves a session with a client, the same form flag and no
    remote call made. *)
Lemma initialize_chat_cases (w : world) :
  (exists msg,
      client (sess w) = None
      /\ initialize_chat env w
         = Stopped {| sess := sess w; shown := shown w ++ [ui_error msg];
                      calls := calls w |})
  \/ (exists w1 c,
        initialize_chat env w = Done tt w1
        /\ client (sess w1) = Some c
        /\ form_completed (sess w1) = form_completed (sess w)
        /\ calls w1 = calls w).
Proof.
  destruct (client (sess w)) as [c|] eqn:Hc.
  - right. exists w, c. rewrite (initialize_chat_ready env w c Hc). auto.
  - destruct (initialize_groq_client_cases env) as [(c & Ha)|(msg & Hr)].
    + right. destruct (messages (sess w)) as [|m ms] eqn:Hm.
      * eexists. exists c. rewrite (initialize_chat_first env w c Hc Ha Hm).
        repeat split.
      * eexists. exists c.
        rewrite (initialize_chat_again env w c Hc Ha) by congruence.
        repeat split.
    + left. exists msg. split; [reflexivity|].
      apply initialize_chat_refused; assumption.
Qed.

Lemma chat_page_after_init (ev : interaction) (w w1 : world) :
  initialize_chat env w = Done tt w1 ->
  chat_page env ev w
  = match display_chat env ev w1 with
    | Done _ w2 => reset_button ev w2
    | Stopped w2 => Stopped w2
    | Rerun w2 => Rerun w2
    end.
Proof. intros H. unfold chat_page, bind. rewrite H. reflexivity. Qed.

(** How the chat page ends: normally, with the form flag untouched and at
    most one remote call, made with the transcript that ends in the user's
    new message; halted during client acquisition, with the session
    untouched; or in a rerun after a reset. *)
Lemma chat_page_outcome (ev : interaction) (w : world) :
  match chat_page env ev w with
  | Done _ w' =>
      ev <> reset_click
      /\ form_completed (sess w') = form_completed (sess w)
      /\ remote_calls_of_turn ev w w'
  | Stopped w' => sess w' = sess w /\ calls w' = calls w
  | Rerun w' =>
      ev = reset_click /\ sess w' = initial_session_state /\ calls w' = calls w
  end.
Proof.
  destruct (initialize_chat_cases w) as [(msg & Hc & E)|(w1 & c & E & Hc & Hfc & Hcl)].
  - unfold chat_page, bind. rewrite E. split; reflexivity.
  - rewrite (chat_page_after_init ev w w1 E). unfold remote_calls_of_turn.
    rewrite <- Hfc, <- Hcl.
    destruct ev as [|sa st sc|prompt|].
    + rewrite (display_chat_idle env no_interaction w1 c Hc) by discriminate.
      cbn. repeat split; auto; discriminate.
    + rewrite (display_chat_idle env (form_submit sa st sc) w1 c Hc) by discriminate.
      cbn. repeat split; auto; discriminate.
    + destruct (truthy prompt) eqn:Hp.
      * rewrite (display_chat_turn env prompt w1 c Hc Hp). cbv zeta.
        destruct (completions_create env _ c _) as [e|[r|]];
          [| destruct (truthy r) |]; cbn;
          (split; [discriminate|]); (split; [reflexivity|]);
          right; exists c, prompt, (messages (sess w1));
          (split; [reflexivity|]); (split; [reflexivity|]); eauto.
      * rewrite (display_chat_idle env (chat_input prompt) w1 c Hc)
          by (intros p Hx; injection Hx as <-; exact Hp).
        cbn. repeat split; auto; discriminate.
    + rewrite (display_chat_idle env reset_click w1 c Hc) by discriminate.
      cbn. repeat split; auto.
Qed.

End ChatPage.

Section Interactions.

Variable env : environment.

Lemma form_page_idle (w : world) :
  form_page no_interaction w
  = Done tt {| sess := sess w;
               shown := shown w ++ [ui_info (lit "Tell us a bit about your child to receive more personalized advice.")];
               calls := calls w |}.
Proof. reflexivity. Qed.

Lemma script_unfold (ev : interaction) (w : world) :
  script env ev w
  = if negb (form_completed (sess w)) then form_page ev w else chat_page env ev w.
Proof.
  unfold script, bind, get_session.
  destruct (form_completed (sess w)); reflexivity.
Qed.

(** A script run that no widget triggered never asks for a rerun, so one
    rerun is all an interaction can cause. *)
Lemma script_idle_no_rerun (w w' : world) :
  script env no_interaction w <> Rerun w'.
Proof.
  rewrite script_unfold.
  destruct (form_completed (sess w)); cbn [negb].
  - pose proof (chat_page_outcome env no_interaction w) as H.
    destruct (chat_page env no_interaction w); try discriminate.
    destruct H as [H _]. discriminate H.
  - rewrite form_page_idle. discriminate.
Qed.

(** The form page: it ends normally with the session and the calls as they
    were, or in a rerun with the submission stored and the form completed. *)
Lemma form_page_outcome (ev : interaction) (w : world) :
  match form_page ev w with
  | Done _ w' => sess w' = sess w /\ calls w' = calls w
  | Stopped _ => False
  | Rerun w' =>
      calls w' = calls w
      /\ exists a t c,
          ev = form_submit a t c
          /\ sess w'
             = set_form_completed true
                 (set_current_challenges c
                    (set_child_temperament t (set_child_age (Some a) (sess w))))
  end.
Proof.
  destruct ev as [|sa st sc|prompt|]; cbn; auto.
  split; [reflexivity|]. exists sa, st, sc. split; reflexivity.
Qed.

Lemma on_interaction_invariant (ev : interaction) (store : session_store) :
  form_pending_is_initial (initialize_session_state store) ->
  form_pending_is_initial (sess (on_interaction env ev store)).
Proof.
  unfold on_interaction, run_script.
  set (s0 := initialize_session_state store).
  set (w0 := {| sess := s0; shown := []; calls := [] |}).
  intros Hinv. rewrite script_unfold. cbn [sess w0].
  destruct (form_completed s0) eqn:Hfc; cbn [negb].
  - pose proof (chat_page_outcome env ev w0) as H.
    destruct (chat_page env ev w0) as [[] w'|w'|w']; cbn [final_world].
    + destruct H as (_ & H & _). cbn [sess w0] in H. intros Hx. congruence.
    + destruct H as [H _]. cbn [sess w0] in H. intros Hx. congruence.
    + destruct H as (_ & H & _). rewrite script_unfold, H.
      cbn [form_completed initial_session_state negb].
      rewrite form_page_idle. intros _. exact H.
  - specialize (Hinv Hfc).
    pose proof (form_page_outcome ev w0) as H.
    destruct (form_page ev w0) as [[] w'|w'|w']; cbn [final_world].
    + destruct H as [H _]. rewrite H. intros _. exact Hinv.
    + contradiction.
    + destruct H as (_ & a & t & c & _ & H).
      assert (Hfc1 : form_completed (sess w') = true) by (rewrite H; reflexivity).
      rewrite script_unfold, Hfc1. cbn [negb].
      pose proof (chat_page_outcome env no_interaction w') as H'.
      destruct (chat_page env no_interaction w') as [[] w''|w''|w'']; cbn [final_world].
      * destruct H' as (_ & H' & _). intros Hx. congruence.
      * destruct H' as [H' _]. intros Hx. congruence.
      * destruct H' as [H' _]. discriminate H'.
Qed.

(** One interaction makes no remote call, or the single call of a chat
    turn. *)
Lemma on_interaction_calls (ev : interaction) (store : session_store) :
  remote_calls_of_turn ev
    {| sess := initialize_session_state store; shown := []; calls := [] |}
    (on_interaction env ev store).
Proof.
  unfold on_interaction, run_script.
  set (s0 := initialize_session_state store).
  set (w0 := {| sess := s0; shown := []; calls := [] |}).
  rewrite script_unfold. cbn [sess w0].
  destruct (form_completed s0) eqn:Hfc; cbn [negb].
  - pose proof (chat_page_outcome env ev w0) as H.
    destruct (chat_page env ev w0) as [[] w'|w'|w']; cbn [final_world].
    + destruct H as (_ & _ & H). exact H.
    + destruct H as [_ H]. left. exact H.
    + destruct H as (_ & H & Hcl). rewrite script_unfold, H.
      cbn [form_completed initial_session_state negb].
      rewrite form_page_idle. left. exact Hcl.
  - pose proof (form_page_outcome ev w0) as H.
    destruct (form_page ev w0) as [[] w'|w'|w']; cbn [final_world].
    + destruct H as [_ H]. left. exact H.
    + contradiction.
    + destruct H as (Hcl & a & t & c & _ & H).
      assert (Hfc1 : form_completed (sess w') = true) by (rewrite H; reflexivity).
      rewrite script_unfold, Hfc1. cbn [negb].
      pose proof (chat_page_outcome env no_interaction w') as H'.
      destruct (chat_page env no_interaction w') as [[] w''|w''|w'']; cbn [final_world].
      * destruct H' as (_ & _ & [H'|(c' & p & b & Hev & _)]);
          [left; congruence | discriminate Hev].
      * destruct H' as [_ H']. left. congruence.
      * destruct H' as [H' _]. discriminate H'.
Qed.

End Interactions.

Lemma reachable_invariant (store : session_store) :
  reachable store -> form_pending_is_initial (initialize_session_state store).
Proof.
  induction 1 as [|env ev store _ IH].
  - intros _. reflexivity.
  - cbn [initialize_session_state]. apply on_interaction_invariant, IH.
Qed.

Lemma reset_session_state_run (w : world) :
  reset_session_state w
  = Done tt {| sess := initial_session_state; shown := shown w; calls := calls w |}.
Proof. reflexivity. Qed.

Section Turns.

Variable env : environment.

(** A chat input with text, in a session that has its client. *)
Lemma on_interaction_chat_turn (s : session_state) (c : handle) (prompt : str) :
  form_completed s = true -> client s = Some c -> truthy prompt = true ->
  on_interaction env (chat_input prompt) (Some s)
  = (let s1 := append_message {| role := user; content := prompt |} s in
     let req := make_request (messages s1) DEFAULT_MODEL in
     let base :=
       [ ui_caption (lit "Context: " ++ context_summary s);
         ui_caption (lit "Powered by Groq (" ++ DEFAULT_MODEL ++ lit ")") ]
       ++ rendered_view (messages s)
       ++ [ui_chat_message user prompt] in
     match completions_create env 0 c req with
     | Raised e =>
         {| sess := s1;
            shown := base ++ [ui_error (lit "An error occurred while communicating with Groq: " ++ e)];
            calls := [(c, req)] |}
     | Returned (Some r) =>
         if truthy r
         then {| sess := append_message {| role := assistant; content := r |} s1;
                 shown := base ++ [ui_chat_message assistant r];
                 calls := [(c, req)] |}
         else {| sess := s1; shown := base; calls := [(c, req)] |}
     | Returned None =>
         {| sess := s1; shown := base; calls := [(c, req)] |}
     end).
Proof.
  intros Hfc Hc Hp. unfold on_interaction, run_script.
  rewrite script_unfold. cbn [sess initialize_session_state]. rewrite Hfc.
  cbn [negb]. unfold chat_page, bind.
  rewrite (initialize_chat_ready env _ c) by exact Hc.
  rewrite (display_chat_turn env prompt _ c) by assumption.
  cbv zeta. cbn [sess shown calls List.length app reset_button ret final_world].
  destruct (completions_create env 0%nat c _) as [e|[r|]];
    [| destruct (truthy r) |]; reflexivity.
Qed.

(** An execution that no widget triggered leaves a chat session as it is. *)
Lemma on_interaction_idle (s : session_state) (c : handle) :
  form_completed s = true -> client s = Some c ->
  sess (on_interaction env no_interaction (Some s)) = s.
Proof.
  intros Hfc Hc. unfold on_interaction, run_script.
  rewrite script_unfold. cbn [sess initialize_session_state]. rewrite Hfc.
  cbn [negb]. unfold chat_page, bind.
  rewrite (initialize_chat_ready env _ c) by exact Hc.
  rewrite (display_chat_idle env no_interaction _ c) by (try exact Hc; discriminate).
  reflexivity.
Qed.

End Turns.

Section Welcome.

Lemma lower_separator : lower (lit ", ") = lit ", ".
Proof. reflexivity. Qed.

(** The welcome text of the source is the concatenation of the clauses the
    specification lists. *)
Lemma welcome_message_clauses (s : session_state) (a : str) :
  child_age s = Some a -> a <> [] ->
  welcome_message s
  = List.concat (welcome_clauses a (child_temperament s) (current_challenges s)).
Proof.
  intros Ha Hne. unfold welcome_message, welcome_clauses. rewrite Ha.
  apply truthy_nonempty in Hne. rewrite Hne. cbn [andb].
  pose proof (challenges_given_iff (current_challenges s)) as Hch.
  destruct (eqb a NOT_SPECIFIED); cbn [negb];
    destruct (child_temperament s) as [|t0 t'];
    rewrite ?lower_join, ?lower_separator;
    destruct (strip (current_challenges s)) as [|x rest] eqn:Hs;
    destruct (challenges_given (current_challenges s));
    try (exfalso; destruct Hch as [H1 H2];
         first [ now apply H1 | discriminate H2; discriminate ]);
    reflexivity.
Qed.

End Welcome.

(** * The properties of the session *)

(** C6: when the remote call of a chat turn raises, the user message just
    appended stays the last element of the transcript and nothing else of the
    session changes (so no assistant message is appended), the error is
    shown, and the call was made once; the next input is sent with the
    transcript as it stands, the unanswered user message included, again in
    one call. *)
Theorem failed_turn_keeps_user_message
    (env : environment) (s : session_state) (c : handle) (prompt e : str) :
  form_completed s = true -> client s = Some c -> prompt <> [] ->
  completions_create env 0%nat c
    (make_request (messages s ++ [ {| role := user; content := prompt |} ])
                  DEFAULT_MODEL)
  = Raised e ->
  let w := on_interaction env (chat_input prompt) (Some s) in
  sess w = append_message {| role := user; content := prompt |} s
  /\ messages (sess w) = messages s ++ [ {| role := user; content := prompt |} ]
  /\ last (messages (sess w)) {| role := system; content := [] |}
     = {| role := user; content := prompt |}
  /\ In (ui_error (lit "An error occurred while communicating with Groq: " ++ e))
        (shown w)
  /\ calls w
     = [ (c, make_request (messages s ++ [ {| role := user; content := prompt |} ])
                          DEFAULT_MODEL) ]
  /\ (forall env' prompt',
        prompt' <> [] ->
        calls (on_interaction env' (chat_input prompt') (Some (sess w)))
        = [ (c, make_request
                  (messages s ++ [ {| role := user; content := prompt |};
                                   {| role := user; content := prompt' |} ])
                  DEFAULT_MODEL) ]).
Proof.
  intros Hfc Hc Hp Hraise w.
  assert (Hw : w = {| sess := append_message {| role := user; content := prompt |} s;
                      shown := ([ ui_caption (lit "Context: " ++ context_summary s);
                                  ui_caption (lit "Powered by Groq (" ++ DEFAULT_MODEL ++ lit ")") ]
                                ++ rendered_view (messages s)
                                ++ [ui_chat_message user prompt])
                               ++ [ui_error (lit "An error occurred while communicating with Groq: " ++ e)];
                      calls := [ (c, make_request
                                       (messages s ++ [ {| role := user; content := prompt |} ])
                                       DEFAULT_MODEL) ] |}).
  { subst w. rewrite (on_interaction_chat_turn env s c prompt Hfc Hc)
      by (apply truthy_nonempty; exact Hp).
    cbv zeta. cbn [append_message set_messages messages]. rewrite Hraise. reflexivity. }
  rewrite Hw. cbn [sess shown calls]. repeat split.
  - cbn [append_message set_messages messages]. apply last_last.
  - apply in_or_app. right. left. reflexivity.
  - intros env' prompt' Hp'.
    rewrite (on_interaction_chat_turn env' _ c prompt')
      by (try (apply truthy_nonempty; exact Hp'); assumption).
    cbv zeta. cbn [append_message set_messages messages].
    rewrite <- app_assoc. cbn [app].
    destruct (completions_create env' _ c _) as [e'|[r|]];
      [| destruct (truthy r) |]; reflexivity.
Qed.

Lemma failed_turn_keeps_user_message_witness :
  let w := on_interaction (sample_environment (Raised (lit "timeout")))
             (chat_input (lit "How do I handle tantrums?"))
             (Some sample_chat_session) in
  messages (sess w)
  = messages sample_chat_session
    ++ [ {| role := user; content := lit "How do I handle tantrums?" |} ]
  /\ In (ui_error (lit "An error occurred while communicating with Groq: timeout"))
        (shown w).
Proof.
  pose proof (failed_turn_keeps_user_message
                (sample_environment (Raised (lit "timeout")))
                sample_chat_session 1 (lit "How do I handle tantrums?")
                (lit "timeout") eq_refl eq_refl) as H.
  cbv zeta in *.
  destruct H as (_ & H2 & _ & H4 & _); [discriminate | reflexivity |].
  split; [exact H2 | exact H4].
Defined.

(** C9: when the remote call returns an empty reply ([None] or the empty
    string), the turn ends with the user message as the last element of the
    transcript, no assistant message appended, nothing else changed, and no
    error shown. *)
Theorem empty_reply_is_silent
    (env : environment) (s : session_state) (c : handle) (prompt : str)
    (body : option str) :
  form_completed s = true -> client s = Some c -> prompt <> [] ->
  completions_create env 0%nat c
    (make_request (messages s ++ [ {| role := user; content := prompt |} ])
                  DEFAULT_MODEL)
  = Returned body ->
  body = None \/ body = Some [] ->
  let w := on_interaction env (chat_input prompt) (Some s) in
  sess w = append_message {| role := user; content := prompt |} s
  /\ messages (sess w) = messages s ++ [ {| role := user; content := prompt |} ]
  /\ last (messages (sess w)) {| role := system; content := [] |}
     = {| role := user; content := prompt |}
  /\ (forall msg, ~ In (ui_error msg) (shown w))
  /\ existsb is_error (shown w) = false.
Proof.
  intros Hfc Hc Hp Hret Hbody w.
  assert (Hw : w = {| sess := append_message {| role := user; content := prompt |} s;
                      shown := [ ui_caption (lit "Context: " ++ context_summary s);
                                 ui_caption (lit "Powered by Groq (" ++ DEFAULT_MODEL ++ lit ")") ]
                               ++ rendered_view (messages s)
                               ++ [ui_chat_message user prompt];
                      calls := [ (c, make_request
                                       (messages s ++ [ {| role := user; content := prompt |} ])
                                       DEFAULT_MODEL) ] |}).
  { subst w. rewrite (on_interaction_chat_turn env s c prompt Hfc Hc)
      by (apply truthy_nonempty; exact Hp).
    cbv zeta. cbn [append_message set_messages messages]. rewrite Hret.
    destruct Hbody as [->| ->]; reflexivity. }
  assert (Hne : forall msg, ~ In (ui_error msg) (shown w)).
  { rewrite Hw. cbn [shown]. intros msg H.
    cbn [app In] in H. destruct H as [H|[H|H]]; try discriminate H.
    apply in_app_or in H. destruct H as [H|[H|[]]]; [|discriminate H].
    exact (rendered_view_no_error _ _ H). }
  split; [|split; [|split; [|split]]].
  - rewrite Hw. reflexivity.
  - rewrite Hw. reflexivity.
  - rewrite Hw. cbn [sess append_message set_messages messages]. apply last_last.
  - exact Hne.
  - destruct (existsb is_error (shown w)) eqn:E; [|reflexivity].
    apply existsb_exists in E. destruct E as ([msg| | | | ] & Hin & Hx);
      try discriminate Hx.
    exfalso. exact (Hne msg Hin).
Qed.

Lemma empty_reply_is_silent_witness :
  let w := on_interaction (sample_environment (Returned (Some [])))
             (chat_input (lit "How do I handle tantrums?"))
             (Some sample_chat_session) in
  messages (sess w)
  = messages sample_chat_session
    ++ [ {| role := user; content := lit "How do I handle tantrums?" |} ]
  /\ existsb is_error (shown w) = false.
Proof.
  pose proof (empty_reply_is_silent
                (sample_environment (Returned (Some [])))
                sample_chat_session 1 (lit "How do I handle tantrums?")
                (Some []) eq_refl eq_refl) as H.
  cbv zeta in *.
  destruct H as (_ & H2 & _ & _ & H5);
    [discriminate | reflexivity | right; reflexivity |].
  split; [exact H2 | exact H5].
Defined.

(** C7: in every session state reached between two interactions, a form that
    is not completed goes with an empty transcript and no client; the body of
    the reset button, run on any state at all, leaves the defaults (form not
    completed, no age, no traits, no challenges, empty transcript, no
    client); and so does a click on the reset button of the chat page. *)
Theorem form_pending_invariant_and_reset :
  (forall store s,
      reachable store -> store = Some s -> form_completed s = false ->
      messages s = [] /\ client s = None)
  /\ (forall w,
        exists w',
          reset_session_state w = Done tt w'
          /\ form_completed (sess w') = false
          /\ messages (sess w') = []
          /\ client (sess w') = None
          /\ child_age (sess w') = None
          /\ child_temperament (sess w') = []
          /\ current_challenges (sess w') = []
          /\ shown w' = shown w /\ calls w' = calls w)
  /\ (forall env s c,
        form_completed s = true -> client s = Some c ->
        sess (on_interaction env reset_click (Some s)) = initial_session_state).
Proof.
  split; [|split].
  - intros store s Hr -> Hfc.
    pose proof (reachable_invariant (Some s) Hr) as H.
    cbn [initialize_session_state] in H.
    rewrite (H Hfc). split; reflexivity.
  - intros w. eexists. rewrite reset_session_state_run. repeat split.
  - intros env s c Hfc Hc.
    unfold on_interaction, run_script.
    rewrite script_unfold. cbn [sess initialize_session_state]. rewrite Hfc.
    cbn [negb]. unfold chat_page, bind.
    rewrite (initialize_chat_ready env _ c) by exact Hc.
    rewrite (display_chat_idle env reset_click _ c) by (try exact Hc; discriminate).
    reflexivity.
Qed.

Lemma form_pending_invariant_and_reset_witness :
  reachable (Some (sess (on_interaction (sample_environment (Returned None))
                           reset_click (Some sample_chat_session))))
  /\ messages (sess (on_interaction (sample_environment (Returned None))
                       reset_click (Some sample_chat_session))) = []
  /\ client (sess (on_interaction (sample_environment (Returned None))
                     reset_click (Some sample_chat_session))) = None
  /\ sess (on_interaction (sample_environment (Returned None))
             reset_click (Some sample_chat_session)) = initial_session_state.
Proof.
  assert (Hr : reachable
                 (Some (sess (on_interaction (sample_environment (Returned None))
                                reset_click (Some sample_chat_session))))).
  { apply reachable_step. unfold sample_chat_session.
    apply reachable_step. apply reachable_fresh. }
  split; [exact Hr|].
  destruct form_pending_invariant_and_reset as (Hinv & _ & Hreset).
  destruct (Hinv _ _ Hr eq_refl eq_refl) as [Hm Hc].
  split; [exact Hm|]. split; [exact Hc|].
  exact (Hreset (sample_environment (Returned None)) sample_chat_session 1
           eq_refl eq_refl).
Defined.

(** C10: every remote completion request of every script run carries
    [max_tokens = 1500] next to [temperature = 0.7], [top_p = 1],
    [stop = None], [stream = False] and the default model; it is the only
    request of its interaction, it is made for a chat input, and its message
    sequence is the whole transcript, which ends in the user's new message
    and to which at most the reply is appended afterwards. *)
Theorem every_request_fixed_parameters
    (env : environment) (ev : interaction) (store : session_store)
    (c : handle) (r : completion_request) :
  In (c, r) (calls (on_interaction env ev store)) ->
  max_tokens r = 1500
  /\ temperature r = Sampling.temperature_literal
  /\ top_p r = 1
  /\ stop r = None
  /\ stream r = false
  /\ req_model r = DEFAULT_MODEL
  /\ calls (on_interaction env ev store) = [(c, r)]
  /\ exists prompt before,
       ev = chat_input prompt
       /\ req_messages r = before ++ [ {| role := user; content := prompt |} ]
       /\ (messages (sess (on_interaction env ev store)) = req_messages r
           \/ exists reply,
                messages (sess (on_interaction env ev store))
                = req_messages r ++ [ {| role := assistant; content := reply |} ]).
Proof.
  intros Hin.
  destruct (on_interaction_calls env ev store)
    as [E|(c' & prompt & before & Hev & E & Hm)]; cbn [calls] in E.
  - rewrite E in Hin. contradiction.
  - cbn [app] in E. rewrite E in Hin. destruct Hin as [Hin|[]].
    injection Hin as <- <-. cbn [max_tokens temperature top_p stop stream req_model
                                   req_messages make_request].
    repeat (split; [reflexivity|]). split; [exact E|].
    exists prompt, before. auto.
Qed.

Lemma every_request_fixed_parameters_witness :
  max_tokens
    (make_request
       (messages sample_chat_session
        ++ [ {| role := user; content := lit "How do I handle tantrums?" |} ])
       DEFAULT_MODEL) = 1500.
Proof.
  assert (Hin : In (1, make_request
                         (messages sample_chat_session
                          ++ [ {| role := user;
                                  content := lit "How do I handle tantrums?" |} ])
                         DEFAULT_MODEL)
                   (calls (on_interaction
                             (sample_environment
                                (Returned (Some (lit "Try staying calm..."))))
                             (chat_input (lit "How do I handle tantrums?"))
                             (Some sample_chat_session)))).
  { vm_compute. left. reflexivity. }
  exact (proj1 (every_request_fixed_parameters _ _ _ _ _ Hin)).
Defined.

(** C8: on the first arrival in the chat with a client acquired, the
    transcript becomes the system message composed by [create_system_prompt]
    from the submitted fields, followed by one assistant welcome message, and
    nothing else; the welcome text is the concatenation, in this order, of
    the greeting, the age clause unless the age range is "Not specified", the
    temperament clause with the traits lower-cased and comma-joined unless
    there are none, the period, the challenges clause with the stripped text
    unless that is empty, and the closing question.  Later executions do not
    touch the two messages. *)
Theorem first_arrival_builds_transcript
    (env : environment) (store : session_store) (c : handle)
    (age : str) (traits : list str) (challenges : str) :
  reachable store ->
  form_completed (initialize_session_state store) = false ->
  In age age_options ->
  Forall (fun trait => In trait temperament_options) traits ->
  client_acquired env c ->
  let w := on_interaction env (form_submit age traits challenges) store in
  messages (sess w)
  = [ {| role := system;
         content := create_system_prompt (Some age) traits challenges |};
      {| role := assistant;
         content := List.concat (welcome_clauses age traits challenges) |} ]
  /\ form_completed (sess w) = true
  /\ client (sess w) = Some c
  /\ child_age (sess w) = Some age
  /\ child_temperament (sess w) = traits
  /\ current_challenges (sess w) = challenges
  /\ (forall env', sess (on_interaction env' no_interaction (Some (sess w))) = sess w).
Proof.
  intros Hr Hfc Hage _ Ha w.
  assert (Hne : age <> []).
  { cbn [age_options In] in Hage.
    decompose [or] Hage; try contradiction; subst age; discriminate. }
  pose proof (reachable_invariant store Hr Hfc) as Hs0.
  assert (Hw : sess w
               = {| form_completed := true;
                    child_age := Some age;
                    child_temperament := traits;
                    current_challenges := challenges;
                    messages :=
                      [ {| role := system;
                           content := create_system_prompt (Some age) traits challenges |};
                        {| role := assistant;
                           content := List.concat (welcome_clauses age traits challenges) |} ];
                    client := Some c |}).
  { subst w. unfold on_interaction, run_script. rewrite Hs0.
    rewrite script_unfold. cbn [sess form_completed initial_session_state negb].
    unfold form_page, bind, emit, modify, st_rerun. cbn [sess shown calls].
    rewrite script_unfold. cbn [sess form_completed set_form_completed negb].
    unfold chat_page, bind.
    rewrite (initialize_chat_first env _ c) by (try exact Ha; reflexivity).
    rewrite (display_chat_idle env no_interaction _ c) by (try reflexivity; discriminate).
    cbn [reset_button ret final_world sess]. cbv zeta.
    unfold append_message, set_messages, set_client, set_form_completed,
      set_current_challenges, set_child_temperament, set_child_age.
    cbn [form_completed child_age child_temperament current_challenges messages client
           initial_session_state app].
    rewrite (welcome_message_clauses _ age) by (try exact Hne; reflexivity).
    reflexivity. }
  rewrite Hw. cbn [messages form_completed client child_age child_temperament
                     current_challenges].
  repeat (split; [reflexivity|]).
  intros env'. apply (on_interaction_idle env' _ c); reflexivity.
Qed.

Lemma first_arrival_builds_transcript_witness :
  messages sample_chat_session
  = [ {| role := system;
         content := create_system_prompt (Some (lit "Toddler (1-3 years)"))
                      [lit "Shy / Cautious"] [] |};
      {| role := assistant;
         content := lit "Hello! I'm ready to help with parenting tips for your toddler (1-3 years)  (described as shy / cautious) .  How can I assist you today?" |} ].
Proof.
  refine (proj1 (first_arrival_builds_transcript
                   (sample_environment (Returned None)) None 1
                   (lit "Toddler (1-3 years)") [lit "Shy / Cautious"] []
                   reachable_fresh eq_refl _ _ _)).
  - right. right. right. left. reflexivity.
  - apply Forall_cons; [|apply Forall_nil]. right. right. left. reflexivity.
  - intros w. reflexivity.
Defined.

(** * Concrete runs

    The scenarios of the specification, evaluated on the model. *)

Example strip_spaces : strip (lit "  picky eating ") = lit "picky eating".
Proof. reflexivity. Qed.

(** An ideographic space in front and a newline behind are whitespace too. *)
Example strip_unicode : strip [12288; 104; 105; 10] = [104; 105].
Proof. reflexivity. Qed.

Example strip_blank : strip (lit "  ") = [].
Proof. reflexivity. Qed.

(** Scenario A: a toddler, one trait, no challenges. *)
Example scenario_A_lines :
  prompt_lines (Some (lit "Toddler (1-3 years)")) [lit "Shy / Cautious"] []
  = persona_lines
    ++ [ age_sentence (lit "Toddler (1-3 years)");
         traits_sentence (lit "Shy / Cautious");
         safety_sentence ].
Proof. reflexivity. Qed.

(** Scenario C: a first turn that succeeds.  The transcript ends with the
    user message and then the reply, the system message stays first, and the
    page shows the transcript without it. *)
Example scenario_C_turn :
  let w := on_interaction
             (sample_environment (Returned (Some (lit "Try staying calm..."))))
             (chat_input (lit "How do I handle tantrums?"))
             (Some sample_chat_session) in
  messages (sess w)
  = messages sample_chat_session
    ++ [ {| role := user; content := lit "How do I handle tantrums?" |};
         {| role := assistant; content := lit "Try staying calm..." |} ]
  /\ map role (messages (sess w)) = [system; assistant; user; assistant]
  /\ forall body, ~ In (ui_chat_message system body) (shown w).
Proof.
  cbv zeta. split; [vm_compute; reflexivity|]. split; [vm_compute; reflexivity|].
  intros body H. vm_compute in H.
  decompose [or] H; try contradiction; discriminate.
Qed.

(** Scenario E: after a reset the next submission yields a system message
    made of the new values only. *)
Example scenario_E_reset_then_submit :
  let env := sample_environment (Returned None) in
  let after_reset := sess (on_interaction env reset_click (Some sample_chat_session)) in
  let w := on_interaction env
             (form_submit (lit "Teenager (13+ years)") [] (lit " curfew "))
             (Some after_reset) in
  after_reset = initial_session_state
  /\ map content (firstn 1 (messages (sess w)))
     = [create_system_prompt (Some (lit "Teenager (13+ years)")) [] (lit " curfew ")]
  /\ prompt_lines (Some (lit "Teenager (13+ years)")) [] (lit " curfew ")
     = persona_lines
       ++ [ age_sentence (lit "Teenager (13+ years)");
            challenges_sentence (lit "curfew");
            safety_sentence ].
Proof.
  cbv zeta. split; [vm_compute; reflexivity|]. split; vm_compute; reflexivity.
Qed.

(** * Further properties of the prompt composer *)

Section Blank.

Lemma lstrip_nil_iff (s : str) : lstrip s = [] <-> forallb isspace s = true.
Proof.
  induction s as [|x s IH]; simpl; [tauto|].
  destruct (isspace x); simpl; [exact IH|]. split; discriminate.
Qed.

Lemma lstrip_fixed (s : str) :
  match s with [] => True | x :: _ => isspace x = false end -> lstrip s = s.
Proof. destruct s as [|x s]; simpl; [reflexivity|]. intros ->. reflexivity. Qed.

Lemma strip_nil_iff (s : str) : strip s = [] <-> forallb isspace s = true.
Proof.
  destruct (strip_spec s) as (pre & post & E & Hpre & Hpost & Hfirst & _).
  split.
  - intros H. rewrite H in E. cbn [app] in E.
    rewrite E, forallb_app, Hpre, Hpost. reflexivity.
  - intros H. apply lstrip_nil_iff in H. unfold strip, rstrip. rewrite H. reflexivity.
Qed.

Lemma strip_idempotent (s : str) : strip (strip s) = strip s.
Proof.
  destruct (strip_spec s) as (_ & _ & _ & _ & _ & Hfirst & Hlast).
  set (t := strip s) in *. unfold strip at 1, rstrip.
  rewrite (lstrip_fixed t).
  - rewrite lstrip_fixed; [apply rev_involutive|].
    destruct (rev t) as [|x r] eqn:E; [exact I|].
    apply (Hlast (rev r) x). rewrite <- (rev_involutive t), E. reflexivity.
  - destruct t as [|x r] eqn:E; [exact I|]. apply (Hfirst x r). reflexivity.
Qed.

Lemma challenges_given_blank (c : str) :
  challenges_given c = false <-> forallb isspace c = true.
Proof.
  rewrite <- strip_nil_iff. pose proof (challenges_given_iff c) as H.
  destruct (challenges_given c); split; intros Hx; try reflexivity; try discriminate.
  - destruct H as [H _]. exfalso. apply (H eq_refl Hx).
  - destruct (strip c) eqn:E; [reflexivity|].
    destruct H as [_ H]. discriminate H. discriminate.
Qed.

End Blank.

(** X1: the challenges text counts as given exactly when it holds a code
    point that is not whitespace: a text of whitespace only (the empty text
    included) strips to nothing and adds no sentence to the prompt, and every
    other text adds the sentence.  Stripping twice changes nothing more. *)
Theorem blank_challenges_add_nothing (a : option str) (t : list str) (c : str) :
  (strip c = [] <-> forallb isspace c = true)
  /\ (challenges_given c = false <-> forallb isspace c = true)
  /\ ((forall x, ~ In (challenges_sentence x) (prompt_lines a t c))
      <-> forallb isspace c = true)
  /\ strip (strip c) = strip c
  /\ prompt_lines a t (strip c) = prompt_lines a t c.
Proof.
  pose proof (challenges_given_blank c) as Hg.
  split; [apply strip_nil_iff|]. split; [exact Hg|]. split; [|split].
  - rewrite <- Hg. split.
    + intros H. destruct (challenges_given c) eqn:E; [|reflexivity].
      exfalso. apply (H (strip c)). apply in_challenges_sentence. auto.
    + intros H x Hin. apply in_challenges_sentence in Hin. destruct Hin as [Hin _].
      congruence.
  - apply strip_idempotent.
  - unfold prompt_lines.
    assert (E : challenges_given (strip c) = challenges_given c).
    { apply eq_true_iff_eq. rewrite !challenges_given_iff, strip_idempotent. tauto. }
    rewrite E, strip_idempotent. reflexivity.
Qed.

(** X2: the prompt is built in one fixed order: the five persona sentences,
    one age sentence (tailoring or fallback), the traits sentence if there
    are traits, the challenges sentence if the text is not blank, the safety
    sentence.  It has seven sentences at least and nine at most: seven exactly
    when there are no traits and the challenges are blank, nine exactly when
    both are given. *)
Theorem prompt_has_seven_to_nine_sentences
    (a : option str) (t : list str) (c : str) :
  let lines := prompt_lines a t c in
  lines = persona_lines ++ age_slot a ++ traits_slot t ++ challenges_slot c
          ++ [safety_sentence]
  /\ List.length (age_slot a) = 1%nat
  /\ firstn 5 lines = persona_lines
  /\ last lines [] = safety_sentence
  /\ (7 <= List.length lines <= 9)%nat
  /\ (List.length lines = 7%nat <-> t = [] /\ forallb isspace c = true)
  /\ (List.length lines = 9%nat <-> t <> [] /\ strip c <> []).
Proof.
  intros lines. subst lines. rewrite prompt_lines_slots.
  assert (Ha : List.length (age_slot a) = 1%nat).
  { unfold age_slot. destruct a as [s|]; [destruct (age_given (Some s))|]; reflexivity. }
  pose proof (challenges_given_iff c) as Hc.
  pose proof (strip_nil_iff c) as Hb.
  split; [reflexivity|]. split; [exact Ha|]. split; [reflexivity|].
  split; [rewrite !app_assoc; apply last_last|].
  rewrite !length_app, Ha. unfold traits_slot, challenges_slot.
  change (List.length persona_lines) with 5%nat.
  destruct t as [|t0 t']; destruct (challenges_given c) eqn:Hg; cbn [List.length];
    (split; [lia|]); split; split;
    try (intros H; exfalso; lia);
    try (intros [H1 H2]; lia);
    try (intros [H1 H2]; exfalso; congruence).
  all: try (intros _; split; [congruence | apply Hc; reflexivity]).
  all: try (intros _; split; [reflexivity|]; apply Hb;
            destruct (strip c) eqn:E; [reflexivity|];
            destruct Hc as [_ Hc]; discriminate Hc; discriminate).
  all: try (intros [_ H2]; exfalso; apply Hb in H2;
            destruct Hc as [Hc _]; apply (Hc eq_refl H2)).
  all: try (intros [_ H2]; destruct Hc as [_ Hc]; specialize (Hc H2); discriminate Hc).
Qed.

(** X3: the context caption shows at most the first fifty code points of the
    stripped challenges, always followed by an ellipsis (also when nothing
    was cut), and shows no focus part at all for blank challenges. *)
Theorem context_summary_truncates_focus (s : session_state) :
  let base := context_summary (set_current_challenges [] s) in
  (forallb isspace (current_challenges s) = true -> context_summary s = base)
  /\ (strip (current_challenges s) <> [] ->
      exists shown_part cut,
        context_summary s = base ++ lit " | Focus: " ++ shown_part ++ lit "..."
        /\ strip (current_challenges s) = shown_part ++ cut
        /\ List.length shown_part
           = Nat.min 50 (List.length (strip (current_challenges s)))).
Proof.
  cbv zeta. unfold context_summary.
  cbn [current_challenges child_age child_temperament set_current_challenges].
  change (challenges_given []) with false. cbv iota.
  split.
  - intros H. apply challenges_given_blank in H. rewrite H. reflexivity.
  - intros H. apply challenges_given_iff in H. rewrite H.
    exists (firstn 50 (strip (current_challenges s))),
           (skipn 50 (strip (current_challenges s))).
    split; [|split].
    + unfold slice_to. rewrite <- !app_assoc. reflexivity.
    + symmetry. apply firstn_skipn.
    + apply length_firstn.
Qed.

(** * Further properties of the session *)

Section Acquisition.

Variable env : environment.

(** The two ways client acquisition fails. *)
Lemma initialize_groq_client_outcome :
  (exists c, client_acquired env c)
  \/ client_refused env KEY_NOT_FOUND
  \/ (exists e, client_refused env (connect_failed e)).
Proof.
  unfold client_acquired, client_refused, initialize_groq_client.
  destruct (environ_api_key env) as [k|]; cbn [truthy_opt negb].
  - destruct (truthy k) eqn:Hk; cbn [negb].
    + rewrite Hk. destruct (groq_connect env k) as [e|c].
      * right. right. exists e. intros w. reflexivity.
      * left. exists c. intros w. reflexivity.
    + destruct (secrets_api_key env) as [k'|].
      * destruct (truthy k'); [destruct (groq_connect env k') as [e|c]|].
        -- right. right. exists e. intros w. reflexivity.
        -- left. exists c. intros w. reflexivity.
        -- right. left. intros w. reflexivity.
      * rewrite Hk. right. left. intros w. reflexivity.
  - destruct (secrets_api_key env) as [k'|].
    + destruct (truthy k'); [destruct (groq_connect env k') as [e|c]|].
      * right. right. exists e. intros w. reflexivity.
      * left. exists c. intros w. reflexivity.
      * right. left. intros w. reflexivity.
    + right. left. intros w. reflexivity.
Qed.


End Acquisition.


Section Progress.

Lemma chat_progress_refl (s : session_state) : chat_progress s s.
Proof.
  unfold chat_progress. repeat split; auto.
  exists []. symmetry. apply app_nil_r.
Qed.

Lemma chat_progress_trans (s1 s2 s3 : session_state) :
  chat_progress s1 s2 -> chat_progress s2 s3 -> chat_progress s1 s3.
Proof.
  unfold chat_progress.
  intros (A1 & A2 & A3 & A4 & (x1 & A5) & A6 & A7) (B1 & B2 & B3 & B4 & (x2 & B5) & B6 & B7).
  repeat split; try congruence; auto.
  exists (x1 ++ x2). rewrite B5, A5. symmetry. apply app_assoc.
Qed.

Lemma transcript_well_formed_started (c : handle) (s : session_state) :
  transcript_well_formed (started_session c s).
Proof.
  unfold transcript_well_formed, started_session. cbn. exists []. split; reflexivity.
Qed.

Lemma chat_progress_started (c : handle) (s : session_state) :
  client s = None -> messages s = [] -> chat_progress s (started_session c s).
Proof.
  intros Hn Hm. unfold chat_progress. repeat split; try reflexivity.
  - rewrite Hm. eexists. reflexivity.
  - intros c' Hc. congruence.
  - intros _. apply transcript_well_formed_started.
Qed.

Lemma chat_progress_set_client (c : handle) (s : session_state) :
  client s = None -> messages s <> [] -> chat_progress s (set_client (Some c) s).
Proof.
  intros Hn Hm. unfold chat_progress. repeat split; try reflexivity.
  - exists []. symmetry. apply app_nil_r.
  - intros c' Hc. congruence.
  - unfold transcript_well_formed. rewrite Hn. intros H. contradiction.
Qed.

Lemma chat_progress_append (m : message) (s : session_state) (c : handle) :
  client s = Some c -> is_system m = false ->
  chat_progress s (append_message m s).
Proof.
  intros Hc Hm. unfold chat_progress. repeat split; try reflexivity.
  - eexists. reflexivity.
  - intros c' Hc'. exact Hc'.
  - unfold transcript_well_formed, append_message, set_messages.
    cbn [client messages child_age child_temperament current_challenges].
    rewrite Hc. intros (rest & E & Hrest). exists (rest ++ [m]). split.
    + rewrite E. reflexivity.
    + rewrite forallb_app, Hrest. cbn. rewrite Hm. reflexivity.
Qed.

Variable env : environment.

Lemma initialize_chat_progress (w w1 : world) :
  initialize_chat env w = Done tt w1 ->
  chat_progress (sess w) (sess w1)
  /\ (exists c, client (sess w1) = Some c)
  /\ shown w1 = shown w /\ calls w1 = calls w.
Proof.
  intros E. destruct (client (sess w)) as [c|] eqn:Hc.
  - rewrite (initialize_chat_ready env w c Hc) in E. injection E as <-.
    split; [apply chat_progress_refl|]. split; [exists c; exact Hc|]. auto.
  - destruct (initialize_groq_client_cases env) as [(c & Ha)|(msg & Hr)].
    + destruct (messages (sess w)) as [|m ms] eqn:Hm.
      * rewrite (initialize_chat_first env w c Hc Ha Hm) in E. injection E as <-.
        cbn [sess shown calls].
        split; [apply (chat_progress_started c (sess w) Hc Hm)|].
        split; [exists c; reflexivity|]. auto.
      * rewrite (initialize_chat_again env w c Hc Ha) in E by congruence.
        injection E as <-. cbn [sess shown calls].
        split; [apply chat_progress_set_client; congruence|].
        split; [exists c; reflexivity|]. auto.
    + rewrite (initialize_chat_refused env w msg Hc Hr) in E. discriminate E.
Qed.

Lemma never_shown_rendered_view (ms : list message) :
  existsb never_shown (rendered_view ms) = false.
Proof.
  unfold rendered_view. induction ms as [|[r body] ms IH]; [reflexivity|].
  cbn [filter role]. destruct r; cbn [map existsb never_shown role content orb];
    exact IH.
Qed.

Lemma never_shown_turn_error (e : str) :
  never_shown (ui_error (lit "An error occurred while communicating with Groq: " ++ e))
  = false.
Proof. cbn [never_shown]. apply eqb_neq. intros H. head_clash. Qed.

Lemma never_shown_connect_failed (e : str) :
  never_shown (ui_error (connect_failed e)) = false.
Proof. cbn [never_shown]. apply eqb_neq. intros H. unfold connect_failed in H. head_clash. Qed.

(** The chat display with a client: always to its end, appending to the page
    and to the transcript only. *)
Lemma display_chat_summary (ev : interaction) (w : world) (c : handle) :
  client (sess w) = Some c ->
  exists w2 extra,
    display_chat env ev w = Done tt w2
    /\ chat_progress (sess w) (sess w2)
    /\ shown w2 = shown w ++ extra
    /\ existsb never_shown extra = false.
Proof.
  intros Hc.
  assert (Hidle : (forall p, ev = chat_input p -> truthy p = false) ->
            exists w2 extra,
              display_chat env ev w = Done tt w2
              /\ chat_progress (sess w) (sess w2)
              /\ shown w2 = shown w ++ extra
              /\ existsb never_shown extra = false).
  { intros Hev. rewrite (display_chat_idle env ev w c Hc Hev).
    eexists. eexists. split; [reflexivity|]. cbn [sess shown].
    split; [apply chat_progress_refl|]. split; [reflexivity|].
    cbn [app existsb never_shown orb]. apply never_shown_rendered_view. }
  destruct ev as [|sa st sc|prompt|]; try (apply Hidle; discriminate).
  destruct (truthy prompt) eqn:Hp;
    [|apply Hidle; intros p Hx; injection Hx as <-; exact Hp].
  rewrite (display_chat_turn env prompt w c Hc Hp). cbv zeta.
  set (s1 := append_message {| role := user; content := prompt |} (sess w)).
  assert (P1 : chat_progress (sess w) s1)
    by (apply (chat_progress_append _ _ c Hc); reflexivity).
  assert (Hc1 : client s1 = Some c) by exact Hc.
  destruct (completions_create env _ c _) as [e|[r|]]; [| destruct (truthy r) |];
    eexists; eexists; (split; [reflexivity|]); cbn [sess shown];
    (split; [first [ exact P1
                   | apply (chat_progress_trans _ s1); [exact P1|];
                     apply (chat_progress_append _ _ c Hc1); reflexivity ]|]);
    (split; [rewrite <- ?app_assoc; reflexivity|]);
    rewrite ?existsb_app; cbn [app existsb never_shown orb];
    rewrite ?existsb_app, ?never_shown_rendered_view, ?never_shown_turn_error;
    reflexivity.
Qed.

End Progress.

Section PageSummary.

Variable env : environment.

(** The chat page, outcome by outcome: what it does to the session and what
    it adds to the page. *)
Lemma chat_page_summary (ev : interaction) (w : world) :
  match chat_page env ev w with
  | Done _ w' =>
      ev <> reset_click
      /\ chat_progress (sess w) (sess w')
      /\ (exists c, client (sess w') = Some c)
      /\ exists extra, shown w' = shown w ++ extra /\ existsb never_shown extra = false
  | Stopped w' =>
      client (sess w) = None /\ sess w' = sess w /\ calls w' = calls w
      /\ exists msg,
           shown w' = shown w ++ [ui_error msg]
           /\ client_refused env msg
           /\ (msg = KEY_NOT_FOUND \/ exists e, msg = connect_failed e)
  | Rerun w' =>
      ev = reset_click /\ sess w' = initial_session_state
      /\ exists extra, shown w' = shown w ++ extra /\ existsb never_shown extra = false
  end.
Proof.
  destruct (initialize_chat env w) as [[] w1|w1|w1] eqn:E.
  - destruct (initialize_chat_progress env w w1 E) as (P & (c & Hc) & Hsh & _).
    rewrite (chat_page_after_init env ev w w1 E).
    destruct (display_chat_summary env ev w1 c Hc) as (w2 & extra & E2 & P2 & Hsh2 & Hn).
    rewrite E2. rewrite Hsh in Hsh2.
    destruct ev as [|sa st sc|prompt|]; cbn [reset_button ret].
    1-3: split; [discriminate|];
         split; [apply (chat_progress_trans _ (sess w1)); assumption|];
         split; [destruct P2 as (_ & _ & _ & _ & _ & K & _); exists c; apply K, Hc|];
         exists extra; auto.
    cbn. split; [reflexivity|]. split; [reflexivity|]. exists extra. auto.
  - unfold chat_page, bind. rewrite E.
    destruct (client (sess w)) as [c|] eqn:Hc.
    + rewrite (initialize_chat_ready env w c Hc) in E. discriminate E.
    + split; [reflexivity|].
      destruct (initialize_groq_client_outcome env) as [(c & Ha)|[Hr|(e & Hr)]].
      * exfalso. destruct (messages (sess w)) as [|m ms] eqn:Hm.
        -- rewrite (initialize_chat_first env w c Hc Ha Hm) in E. discriminate E.
        -- rewrite (initialize_chat_again env w c Hc Ha) in E by congruence.
           discriminate E.
      * rewrite (initialize_chat_refused env w _ Hc Hr) in E. injection E as <-.
        cbn [sess shown calls]. split; [reflexivity|]. split; [reflexivity|].
        exists KEY_NOT_FOUND. auto.
      * rewrite (initialize_chat_refused env w _ Hc Hr) in E. injection E as <-.
        cbn [sess shown calls]. split; [reflexivity|]. split; [reflexivity|].
        exists (connect_failed e). eauto.
  - exfalso. destruct (initialize_chat_cases env w) as [(msg & _ & E')|(w' & c & E' & _)];
      rewrite E' in E; discriminate E.
Qed.

Lemma form_page_shown (ev : interaction) (w : world) :
  exists extra,
    shown (final_world (form_page ev w)) = shown w ++ extra
    /\ existsb never_shown extra = false.
Proof.
  destruct ev; cbn; rewrite <- ?app_assoc; eexists;
    (split; [reflexivity|reflexivity]).
Qed.

(** One interaction, whatever the stored session: nothing is shown that
    [never_shown] excludes. *)
Lemma on_interaction_shown (ev : interaction) (store : session_store) :
  existsb never_shown (shown (on_interaction env ev store)) = false.
Proof.
  unfold on_interaction, run_script.
  set (w0 := {| sess := initialize_session_state store; shown := []; calls := [] |}).
  assert (Hpage : forall ev' w,
             existsb never_shown (shown w) = false ->
             existsb never_shown (shown (final_world (script env ev' w))) = false).
  { intros ev' w Hw. rewrite script_unfold.
    destruct (form_completed (sess w)); cbn [negb].
    - pose proof (chat_page_summary ev' w) as H.
      destruct (chat_page env ev' w) as [[] w'|w'|w']; cbn [final_world].
      + destruct H as (_ & _ & _ & extra & -> & Hn). rewrite existsb_app, Hw, Hn. reflexivity.
      + destruct H as (_ & _ & _ & msg & -> & _ & Hmsg).
        rewrite existsb_app, Hw. cbn [existsb orb].
        destruct Hmsg as [->|(e & ->)];
          [reflexivity | rewrite never_shown_connect_failed; reflexivity].
      + destruct H as (_ & _ & extra & -> & Hn). rewrite existsb_app, Hw, Hn. reflexivity.
    - destruct (form_page_shown ev' w) as (extra & -> & Hn).
      rewrite existsb_app, Hw, Hn. reflexivity. }
  destruct (script env ev w0) as [[] w'|w'|w'] eqn:E.
  - rewrite <- (f_equal final_world E). apply Hpage. reflexivity.
  - rewrite <- (f_equal final_world E). apply Hpage. reflexivity.
  - apply Hpage. change w' with (final_world (@Rerun unit w')). rewrite <- E.
    apply Hpage. reflexivity.
Qed.

(** One interaction keeps the invariant of the session. *)
Lemma on_interaction_session_invariant (ev : interaction) (store : session_store) :
  session_invariant (initialize_session_state store) ->
  session_invariant (sess (on_interaction env ev store)).
Proof.
  unfold on_interaction, run_script.
  set (s0 := initialize_session_state store).
  set (w0 := {| sess := s0; shown := []; calls := [] |}).
  intros (Hpend & Hwf & Hage).
  assert (Hinit : session_invariant initial_session_state).
  { split; [intros _; reflexivity|]. split; [reflexivity|]. discriminate. }
  assert (Hchat : forall s s',
             session_invariant s -> form_completed s = true -> chat_progress s s' ->
             session_invariant s').
  { intros s s' (_ & Hw & Ha) Hfc (P1 & P2 & _ & _ & _ & _ & P7).
    split; [intros Hx; congruence|]. split; [auto|]. intros _. rewrite P2. auto. }
  rewrite script_unfold. cbn [sess w0].
  destruct (form_completed s0) eqn:Hfc; cbn [negb].
  - pose proof (chat_page_summary ev w0) as H.
    destruct (chat_page env ev w0) as [[] w'|w'|w']; cbn [final_world].
    + destruct H as (_ & P & _). apply (Hchat s0); [repeat split; auto | exact Hfc | exact P].
    + destruct H as (_ & -> & _). cbn [sess w0]. repeat split; auto.
    + destruct H as (_ & H & _). rewrite script_unfold, H.
      cbn [form_completed initial_session_state negb].
      rewrite form_page_idle. cbn [final_world sess]. rewrite H. exact Hinit.
  - specialize (Hpend Hfc).
    pose proof (form_page_outcome ev w0) as H.
    destruct (form_page ev w0) as [[] w'|w'|w']; cbn [final_world].
    + destruct H as [-> _]. cbn [sess w0]. fold s0. rewrite Hpend. exact Hinit.
    + contradiction.
    + destruct H as (_ & a & t & c & _ & H). cbn [sess w0] in H. fold s0 in H.
      rewrite Hpend in H.
      assert (Hsub : session_invariant (sess w')).
      { rewrite H. split; [discriminate|]. split; [reflexivity|]. discriminate. }
      assert (Hfc1 : form_completed (sess w') = true) by (rewrite H; reflexivity).
      rewrite script_unfold, Hfc1. cbn [negb].
      pose proof (chat_page_summary no_interaction w') as H'.
      destruct (chat_page env no_interaction w') as [[] w''|w''|w'']; cbn [final_world].
      * destruct H' as (_ & P & _). apply (Hchat (sess w')); assumption.
      * destruct H' as (_ & -> & _). exact Hsub.
      * destruct H' as [H' _]. discriminate H'.
Qed.

(** An interaction other than a reset click, on a completed form: the form
    answers stay, the transcript grows, the client stays. *)
Lemma on_interaction_progress (ev : interaction) (s : session_state) :
  form_completed s = true -> ev <> reset_click ->
  chat_progress s (sess (on_interaction env ev (Some s))).
Proof.
  intros Hfc Hev. unfold on_interaction, run_script.
  rewrite script_unfold. cbn [sess initialize_session_state]. rewrite Hfc. cbn [negb].
  pose proof (chat_page_summary ev {| sess := s; shown := []; calls := [] |}) as H.
  destruct (chat_page env ev _) as [[] w'|w'|w']; cbn [final_world].
  - destruct H as (_ & P & _). exact P.
  - destruct H as (_ & -> & _). apply chat_progress_refl.
  - destruct H as [H _]. contradiction.
Qed.

End PageSummary.

Lemma reachable_session_invariant (store : session_store) :
  reachable store -> session_invariant (initialize_session_state store).
Proof.
  induction 1 as [|env ev store _ IH].
  - split; [intros _; reflexivity|]. split; [reflexivity|]. discriminate.
  - cbn [initialize_session_state]. apply on_interaction_session_invariant, IH.
Qed.

Section SessionFacts.

Lemma rendered_view_no_system (ms : list message) :
  forallb (fun m => negb (is_system m)) ms = true ->
  rendered_view ms = map (fun m => ui_chat_message (role m) (content m)) ms.
Proof.
  unfold rendered_view, is_system. induction ms as [|[r body] ms IH]; [reflexivity|].
  cbn [forallb filter role]. destruct r; cbn [negb andb]; try discriminate;
    intros H; cbn [map]; rewrite (IH H); reflexivity.
Qed.

Lemma filter_system_none (ms : list message) :
  forallb (fun m => negb (is_system m)) ms = true -> filter is_system ms = [].
Proof.
  induction ms as [|m ms IH]; [reflexivity|]. cbn [forallb filter].
  destruct (is_system m); cbn [negb andb]; [discriminate|exact IH].
Qed.

Lemma reset_click_in_chat (env : environment) (s : session_state) (c : handle) :
  form_completed s = true -> client s = Some c ->
  on_interaction env reset_click (Some s)
  = {| sess := initial_session_state;
       shown := ([ ui_caption (lit "Context: " ++ context_summary s);
                   ui_caption (lit "Powered by Groq (" ++ DEFAULT_MODEL ++ lit ")") ]
                 ++ rendered_view (messages s))
                ++ [ui_info (lit "Tell us a bit about your child to receive more personalized advice.")];
       calls := [] |}.
Proof.
  intros Hfc Hc. unfold on_interaction, run_script.
  rewrite script_unfold. cbn [sess initialize_session_state]. rewrite Hfc.
  cbn [negb]. unfold chat_page, bind.
  rewrite (initialize_chat_ready env _ c) by exact Hc.
  rewrite (display_chat_idle env reset_click _ c) by (try exact Hc; discriminate).
  reflexivity.
Qed.

(** An execution of the chat page that is not a chat input with text makes
    no remote call. *)
Lemma chat_page_idle_calls (env : environment) (ev : interaction) (w : world) :
  (forall p, ev = chat_input p -> truthy p = false) ->
  calls (final_world (chat_page env ev w)) = calls w.
Proof.
  intros Hev. destruct (initialize_chat env w) as [[] w1|w1|w1] eqn:E.
  - destruct (initialize_chat_progress env w w1 E) as (_ & (c & Hc) & _ & Hcl).
    rewrite (chat_page_after_init env ev w w1 E).
    rewrite (display_chat_idle env ev w1 c Hc Hev). rewrite <- Hcl.
    destruct ev; reflexivity.
  - pose proof (chat_page_summary env ev w) as H.
    unfold chat_page, bind in *. rewrite E in *. cbn [final_world].
    destruct H as (_ & _ & H & _). exact H.
  - exfalso. destruct (initialize_chat_cases env w) as [(msg & _ & E')|(w' & c & E' & _)];
      rewrite E' in E; discriminate E.
Qed.

End SessionFacts.

(** X5: between two interactions the transcript has one shape.  Without a
    client it is empty.  With a client the form is completed, and the
    transcript opens with the one system message, composed from the form
    answers the session holds now, then the welcome message, then messages of
    the user and the assistant only; the page shows all of it but the system
    message. *)
Theorem reachable_transcript_shape (store : session_store) (s : session_state) :
  reachable store -> store = Some s ->
  (client s = None -> messages s = [])
  /\ (forall c,
        client s = Some c ->
        form_completed s = true
        /\ exists age rest,
             child_age s = Some age
             /\ messages s
                = {| role := system;
                     content := create_system_prompt (Some age) (child_temperament s)
                                  (current_challenges s) |}
                  :: {| role := assistant; content := welcome_message s |}
                  :: rest
             /\ forallb (fun m => negb (is_system m)) rest = true
             /\ List.length (filter is_system (messages s)) = 1%nat
             /\ rendered_view (messages s)
                = map (fun m => ui_chat_message (role m) (content m))
                      (tl (messages s))).
Proof.
  intros Hr ->. pose proof (reachable_session_invariant (Some s) Hr) as (Hpend & Hwf & Hage).
  cbn [initialize_session_state] in *. unfold transcript_well_formed in Hwf.
  split.
  - intros Hc. rewrite Hc in Hwf. exact Hwf.
  - intros c Hc. rewrite Hc in Hwf. destruct Hwf as (rest & E & Hrest).
    assert (Hfc : form_completed s = true).
    { destruct (form_completed s) eqn:Hfc; [reflexivity|].
      rewrite (Hpend Hfc) in Hc. discriminate Hc. }
    split; [exact Hfc|].
    destruct (child_age s) as [age|] eqn:Ea; [|exfalso; apply (Hage Hfc); reflexivity].
    exists age, rest. split; [reflexivity|]. split; [exact E|]. split; [exact Hrest|].
    rewrite E. split.
    + cbn [filter is_system role]. rewrite (filter_system_none rest Hrest). reflexivity.
    + unfold rendered_view at 1. cbn [filter role map tl].
      f_equal. apply rendered_view_no_system. exact Hrest.
Qed.

Lemma reachable_transcript_shape_witness :
  exists rest,
    messages sample_chat_session
    = {| role := system;
         content := create_system_prompt (Some (lit "Toddler (1-3 years)"))
                      (child_temperament sample_chat_session)
                      (current_challenges sample_chat_session) |}
      :: {| role := assistant; content := welcome_message sample_chat_session |}
      :: rest.
Proof.
  destruct (reachable_transcript_shape (Some sample_chat_session) sample_chat_session
              (reachable_step _ _ None reachable_fresh) eq_refl) as [_ H].
  destruct (H 1 eq_refl) as (_ & age & rest & Ha & E & _).
  exists rest. injection Ha as <-. exact E.
Defined.

(** X6: on a completed form every interaction but a reset click leaves the
    form answers as they are, keeps the client if there is one, and only
    appends to the transcript: what was in it stays, in place and in
    order. *)
Theorem transcript_append_only
    (env : environment) (ev : interaction) (s : session_state) :
  form_completed s = true -> ev <> reset_click ->
  let s' := sess (on_interaction env ev (Some s)) in
  (exists extra, messages s' = messages s ++ extra)
  /\ form_completed s' = true
  /\ child_age s' = child_age s
  /\ child_temperament s' = child_temperament s
  /\ current_challenges s' = current_challenges s
  /\ (forall c, client s = Some c -> client s' = Some c).
Proof.
  intros Hfc Hev s'.
  destruct (on_interaction_progress env ev s Hfc Hev) as (P1 & P2 & P3 & P4 & P5 & P6 & _).
  fold s' in P1, P2, P3, P4, P5, P6. repeat split; try assumption. congruence.
Qed.

Lemma transcript_append_only_witness :
  exists extra,
    messages (sess (on_interaction
                      (sample_environment (Returned (Some (lit "Try staying calm..."))))
                      (chat_input (lit "How do I handle tantrums?"))
                      (Some sample_chat_session)))
    = messages sample_chat_session ++ extra.
Proof.
  refine (proj1 (transcript_append_only
                   (sample_environment (Returned (Some (lit "Try staying calm..."))))
                   (chat_input (lit "How do I handle tantrums?"))
                   sample_chat_session eq_refl _)).
  discriminate.
Defined.

(** X7: the client is acquired once.  In a chat session that has its client,
    an interaction consults neither the credential nor the connectivity
    probe: two environments that answer the completion calls alike give the
    same result, whatever their keys and probes; and every interaction but a
    reset click keeps the client. *)
Theorem client_is_acquired_once
    (env env' : environment) (ev : interaction) (s : session_state) (c : handle) :
  form_completed s = true -> client s = Some c ->
  (forall n h r, completions_create env n h r = completions_create env' n h r) ->
  on_interaction env ev (Some s) = on_interaction env' ev (Some s)
  /\ (ev <> reset_click -> client (sess (on_interaction env ev (Some s))) = Some c).
Proof.
  intros Hfc Hc Heq. split.
  - destruct ev as [|sa st sc|prompt|].
    + unfold on_interaction, run_script. rewrite !script_unfold.
      cbn [sess initialize_session_state]. rewrite Hfc. cbn [negb]. unfold chat_page, bind.
      rewrite (initialize_chat_ready env _ c), (initialize_chat_ready env' _ c) by exact Hc.
      rewrite (display_chat_idle env no_interaction _ c),
              (display_chat_idle env' no_interaction _ c) by (try exact Hc; discriminate).
      reflexivity.
    + unfold on_interaction, run_script. rewrite !script_unfold.
      cbn [sess initialize_session_state]. rewrite Hfc. cbn [negb]. unfold chat_page, bind.
      rewrite (initialize_chat_ready env _ c), (initialize_chat_ready env' _ c) by exact Hc.
      rewrite (display_chat_idle env (form_submit sa st sc) _ c),
              (display_chat_idle env' (form_submit sa st sc) _ c)
        by (try exact Hc; discriminate).
      reflexivity.
    + destruct (truthy prompt) eqn:Hp.
      * rewrite (on_interaction_chat_turn env s c prompt Hfc Hc Hp),
                (on_interaction_chat_turn env' s c prompt Hfc Hc Hp).
        cbv zeta. rewrite Heq. reflexivity.
      * unfold on_interaction, run_script. rewrite !script_unfold.
        cbn [sess initialize_session_state]. rewrite Hfc. cbn [negb]. unfold chat_page, bind.
        rewrite (initialize_chat_ready env _ c), (initialize_chat_ready env' _ c) by exact Hc.
        rewrite (display_chat_idle env (chat_input prompt) _ c),
                (display_chat_idle env' (chat_input prompt) _ c)
          by (try exact Hc; intros p Hx; injection Hx as <-; exact Hp).
        reflexivity.
    + rewrite (reset_click_in_chat env s c Hfc Hc), (reset_click_in_chat env' s c Hfc Hc).
      reflexivity.
  - intros Hev.
    destruct (on_interaction_progress env ev s Hfc Hev) as (_ & _ & _ & _ & _ & K & _).
    apply K, Hc.
Qed.

Lemma client_is_acquired_once_witness :
  on_interaction (sample_environment (Raised (lit "timeout")))
    (chat_input (lit "How do I handle tantrums?")) (Some sample_chat_session)
  = on_interaction
      {| environ_api_key := None; secrets_api_key := None;
         groq_connect := fun _ => inl (lit "unreachable");
         completions_create := fun _ _ _ => Raised (lit "timeout") |}
      (chat_input (lit "How do I handle tantrums?")) (Some sample_chat_session).
Proof.
  refine (proj1 (client_is_acquired_once
                   (sample_environment (Raised (lit "timeout")))
                   {| environ_api_key := None; secrets_api_key := None;
                      groq_connect := fun _ => inl (lit "unreachable");
                      completions_create := fun _ _ _ => Raised (lit "timeout") |}
                   (chat_input (lit "How do I handle tantrums?"))
                   sample_chat_session 1 eq_refl eq_refl _)).
  intros n h r. reflexivity.
Defined.

(** X8: a chat turn that succeeds.  When the completion call returns a
    non-empty text, the transcript gains the user message and then the
    reply, in this order and nothing else; both are shown, no error is; the
    call was the only one and carried the transcript up to the user
    message. *)
Theorem successful_turn_appends_reply
    (env : environment) (s : session_state) (c : handle) (prompt reply : str) :
  form_completed s = true -> client s = Some c -> prompt <> [] -> reply <> [] ->
  completions_create env 0%nat c
    (make_request (messages s ++ [ {| role := user; content := prompt |} ])
                  DEFAULT_MODEL)
  = Returned (Some reply) ->
  let w := on_interaction env (chat_input prompt) (Some s) in
  messages (sess w)
  = messages s ++ [ {| role := user; content := prompt |};
                    {| role := assistant; content := reply |} ]
  /\ sess w = set_messages (messages (sess w)) s
  /\ shown w
     = [ ui_caption (lit "Context: " ++ context_summary s);
         ui_caption (lit "Powered by Groq (" ++ DEFAULT_MODEL ++ lit ")") ]
       ++ rendered_view (messages s)
       ++ [ ui_chat_message user prompt; ui_chat_message assistant reply ]
  /\ existsb is_error (shown w) = false
  /\ calls w
     = [ (c, make_request (messages s ++ [ {| role := user; content := prompt |} ])
                          DEFAULT_MODEL) ].
Proof.
  intros Hfc Hc Hp Hr Hret w.
  apply truthy_nonempty in Hp. apply truthy_nonempty in Hr.
  assert (Hw : w = {| sess := append_message {| role := assistant; content := reply |}
                                (append_message {| role := user; content := prompt |} s);
                      shown := ([ ui_caption (lit "Context: " ++ context_summary s);
                                  ui_caption (lit "Powered by Groq (" ++ DEFAULT_MODEL ++ lit ")") ]
                                ++ rendered_view (messages s)
                                ++ [ui_chat_message user prompt])
                               ++ [ui_chat_message assistant reply];
                      calls := [ (c, make_request
                                       (messages s ++ [ {| role := user; content := prompt |} ])
                                       DEFAULT_MODEL) ] |}).
  { subst w. rewrite (on_interaction_chat_turn env s c prompt Hfc Hc Hp).
    cbv zeta. cbn [append_message set_messages messages]. rewrite Hret, Hr. reflexivity. }
  rewrite Hw. cbn [sess shown calls append_message set_messages messages
                     form_completed child_age child_temperament current_challenges client].
  split; [rewrite <- app_assoc; reflexivity|].
  split; [reflexivity|].
  split; [cbn [app]; rewrite <- !app_assoc; reflexivity|].
  split; [|reflexivity].
  cbn [app existsb is_error orb]. rewrite !existsb_app. cbn [existsb is_error orb].
  rewrite !orb_false_r. unfold rendered_view.
  induction (filter _ (messages s)) as [|m ms IH]; [reflexivity|exact IH].
Qed.

Lemma successful_turn_appends_reply_witness :
  messages (sess (on_interaction
                    (sample_environment (Returned (Some (lit "Try staying calm..."))))
                    (chat_input (lit "How do I handle tantrums?"))
                    (Some sample_chat_session)))
  = messages sample_chat_session
    ++ [ {| role := user; content := lit "How do I handle tantrums?" |};
         {| role := assistant; content := lit "Try staying calm..." |} ].
Proof.
  refine (proj1 (successful_turn_appends_reply
                   (sample_environment (Returned (Some (lit "Try staying calm..."))))
                   sample_chat_session 1 (lit "How do I handle tantrums?")
                   (lit "Try staying calm...") eq_refl eq_refl _ _ eq_refl));
    discriminate.
Defined.

(** X9: the completion service is called for a chat input with text and for
    nothing else.  A form submission (the welcome message is composed
    locally), a reset, an execution that no widget triggered and an empty
    chat input make no call, whatever the stored session; and an empty chat
    input leaves a chat session as it is. *)
Theorem no_remote_call_without_text
    (env : environment) (ev : interaction) (store : session_store) :
  (forall p, ev = chat_input p -> p = []) ->
  calls (on_interaction env ev store) = []
  /\ (forall s c,
        store = Some s -> form_completed s = true -> client s = Some c ->
        ev = chat_input [] ->
        sess (on_interaction env ev store) = s).
Proof.
  intros Hev.
  assert (Hev' : forall p, ev = chat_input p -> truthy p = false).
  { intros p Hp. rewrite (Hev p Hp). reflexivity. }
  split.
  - unfold on_interaction, run_script.
    set (w0 := {| sess := initialize_session_state store; shown := []; calls := [] |}).
    assert (Hpage : forall ev' w,
               (forall p, ev' = chat_input p -> truthy p = false) ->
               calls (final_world (script env ev' w)) = calls w).
    { intros ev' w H'. rewrite script_unfold.
      destruct (form_completed (sess w)); cbn [negb].
      - apply chat_page_idle_calls, H'.
      - pose proof (form_page_outcome ev' w) as H.
        destruct (form_page ev' w) as [[] w'|w'|w']; cbn [final_world]; tauto. }
    destruct (script env ev w0) as [[] w'|w'|w'] eqn:E.
    + rewrite <- (f_equal final_world E). apply (Hpage ev w0 Hev').
    + rewrite <- (f_equal final_world E). apply (Hpage ev w0 Hev').
    + rewrite Hpage by discriminate.
      change w' with (final_world (@Rerun unit w')). rewrite <- E.
      apply (Hpage ev w0 Hev').
  - intros s c -> Hfc Hc ->. unfold on_interaction, run_script.
    rewrite script_unfold. cbn [sess initialize_session_state]. rewrite Hfc.
    cbn [negb]. unfold chat_page, bind.
    rewrite (initialize_chat_ready env _ c) by exact Hc.
    rewrite (display_chat_idle env (chat_input []) _ c)
      by (try exact Hc; intros p Hx; injection Hx as <-; reflexivity).
    reflexivity.
Qed.

Lemma no_remote_call_without_text_witness :
  calls (on_interaction (sample_environment (Returned (Some (lit "unused"))))
           (form_submit (lit "Toddler (1-3 years)") [lit "Shy / Cautious"] [])
           None) = [].
Proof.
  refine (proj1 (no_remote_call_without_text
                   (sample_environment (Returned (Some (lit "unused"))))
                   (form_submit (lit "Toddler (1-3 years)") [lit "Shy / Cautious"] [])
                   None _)).
  intros p Hp. discriminate Hp.
Defined.



(** X11: the page never shows a system message: no execution, from any
    stored session, puts a chat bubble of role system on the page. *)
Theorem system_message_never_rendered
    (env : environment) (ev : interaction) (store : session_store) (body : str) :
  ~ In (ui_chat_message system body) (shown (on_interaction env ev store)).
Proof.
  intros H. pose proof (on_interaction_shown env ev store) as Hn.
  assert (Hx : existsb never_shown (shown (on_interaction env ev store)) = true).
  { apply existsb_exists. exists (ui_chat_message system body). split; [exact H|reflexivity]. }
  congruence.
Qed.

(** X12: the error of the [else] branch of [if st.session_state.client] is
    dead code.  The branch would show it when the chat display runs without
    a client, but no execution gets there: client acquisition yields a
    client or halts the script before. *)
Theorem not_initialized_error_is_unreachable
    (env : environment) (ev : interaction) (store : session_store) :
  ~ In (ui_error NOT_INITIALIZED) (shown (on_interaction env ev store))
  /\ (forall w, client (sess w) = None ->
        In (ui_error NOT_INITIALIZED) (shown (final_world (display_chat env ev w)))).
Proof.
  split.
  - intros H. pose proof (on_interaction_shown env ev store) as Hn.
    assert (Hx : existsb never_shown (shown (on_interaction env ev store)) = true).
    { apply existsb_exists. exists (ui_error NOT_INITIALIZED). split; [exact H|].
      cbn [never_shown]. apply eqb_eq. reflexivity. }
    congruence.
  - intros w Hc. unfold display_chat, bind, get_session, emit.
    cbn [sess shown calls]. rewrite Hc. cbn [final_world shown].
    apply in_or_app. right. left. reflexivity.
Qed.

(** X13: an execution asks for a rerun in two cases only, a form submission
    on the form page and a reset click on the chat page once the client is
    there; the execution that follows was triggered by no widget and never
    asks for another, so an interaction runs the script twice at most. *)
Theorem rerun_only_after_submit_or_reset
    (env : environment) (ev : interaction) (store : session_store) (w' : world) :
  run_script env ev store = Rerun w' ->
  ((exists a t c,
       ev = form_submit a t c
       /\ form_completed (initialize_session_state store) = false
       /\ form_completed (sess w') = true)
   \/ (ev = reset_click
       /\ form_completed (initialize_session_state store) = true
       /\ sess w' = initial_session_state))
  /\ (forall w'', script env no_interaction w' <> Rerun w'').
Proof.
  unfold run_script. rewrite script_unfold. cbn [sess].
  intros E. split; [|intros w''; apply script_idle_no_rerun].
  destruct (form_completed (initialize_session_state store)) eqn:Hfc; cbn [negb] in E.
  - right. pose proof (chat_page_summary env ev
                         {| sess := initialize_session_state store; shown := []; calls := [] |}) as H.
    rewrite E in H. destruct H as (H1 & H2 & _). auto.
  - left. pose proof (form_page_outcome ev
                        {| sess := initialize_session_state store; shown := []; calls := [] |}) as H.
    rewrite E in H. destruct H as (_ & a & t & c & H1 & H2).
    exists a, t, c. split; [exact H1|]. split; [reflexivity|]. rewrite H2. reflexivity.
Qed.

Lemma rerun_only_after_submit_or_reset_witness :
  exists a t c, form_submit (lit "Not specified") [] [] = form_submit a t c.
Proof.
  destruct (rerun_only_after_submit_or_reset
              (sample_environment (Returned None))
              (form_submit (lit "Not specified") [] []) None _ eq_refl)
    as [[(a & t & c & E & _)|(E & _)] _].
  - exists a, t, c. exact E.
  - discriminate E.
Defined.



(** X15: the age sentence for any value, not only those of the form's list.
    The tailoring sentence is in the prompt exactly when the age range is a
    non-empty text other than "Not specified", and it names that text; for
    no age, the empty text and "Not specified" the fallback sentence is
    there instead.  One of the two is always present, never both. *)
Theorem age_sentence_for_any_value (a : option str) (t : list str) (c : str) :
  let lines := prompt_lines a t c in
  (forall x, In (age_sentence x) lines <-> a = Some x /\ x <> [] /\ x <> NOT_SPECIFIED)
  /\ (In fallback_sentence lines
      <-> a = None \/ a = Some [] \/ a = Some NOT_SPECIFIED)
  /\ (In fallback_sentence lines <-> ~ exists x, In (age_sentence x) lines).
Proof.
  intros lines. subst lines. split; [|split].
  - intros x. rewrite in_age_sentence, age_given_iff. split.
    + intros (E & s & E' & H1 & H2). rewrite E in E'. injection E' as <-. auto.
    + intros (E & H1 & H2). split; [exact E|]. exists x. auto.
  - rewrite in_fallback_sentence. unfold age_given.
    destruct a as [s|]; [|split; auto].
    rewrite andb_false_iff, negb_false_iff, truthy_false_empty, eqb_eq. split.
    + intros [->| ->]; auto.
    + intros [H|[H|H]]; [discriminate H| |]; injection H as ->; auto.
  - rewrite in_fallback_sentence. split.
    + intros Hg (x & Hx). apply in_age_sentence in Hx. destruct Hx as [_ Hx]. congruence.
    + intros Hn. destruct (age_given a) eqn:Hg; [|reflexivity].
      exfalso. apply Hn. destruct (proj1 (age_given_iff a) Hg) as (s & E & _).
      exists s. apply in_age_sentence. auto.
Qed.
